(** * Image colour transformer: a shallow embedding of [streamlit_app.py]
      and [bitmap_converter.py]

    The development follows the two Python modules:
    - Python values that travel through [transform_color] (an [int] for a
      grayscale pixel, a tuple of [int]s otherwise) and the exceptions the
      function can raise;
    - Python's [float] is IEEE binary64, modelled by Rocq's primitive
      floats, so that [int(t * brightness)] is computed bit for bit;
    - [process_image] as a row-major double loop over a pixel grid with an
      explicit trace of the progress callback;
    - the batch loop of [main] as explicit state passing over the session
      state (a dictionary keyed by [(file name, colour)]);
    - the ZIP archive as the ordered list of its members. *)

From stdpp Require Import gmap strings list sorting.
From Stdlib Require Import ZArith Lia Floats Uint63 QArith Qround.
From Stdlib Require Import Bool.

Set Default Proof Using "Type".
Local Open Scope Z_scope.

(** ** Python values and exceptions *)

(** What [img.getpixel] returns and [img.putpixel] accepts: a bare [int]
    (single-band images) or a tuple of [int]s (multi-band images). *)
Inductive pyval : Type :=
  | PInt (n : Z)
  | PTuple (cs : list Z).

Inductive exn : Type :=
  | ValueError          (* tuple unpacking of the wrong arity, int(nan) *)
  | IndexError          (* subscript out of range *)
  | OverflowError       (* int(inf) *)
  | ZeroDivisionError.  (* true division by zero *)

(** The outcome of a Python expression: a value or a raised exception. *)
Inductive res (A : Type) : Type :=
  | Ok (a : A)
  | Raise (e : exn).
Arguments Ok {A} a.
Arguments Raise {A} e.

Definition bind {A B} (m : res A) (k : A -> res B) : res B :=
  match m with
  | Ok a => k a
  | Raise e => Raise e
  end.

#[global] Instance res_bind : MBind res := fun A B k m => bind m k.
#[global] Instance res_ret : MRet res := fun A a => Ok a.

Definition is_ok {A} (m : res A) : bool :=
  match m with Ok _ => true | Raise _ => false end.

#[global] Instance pyval_eq_dec : EqDecision pyval.
Proof. solve_decision. Defined.
#[global] Instance exn_eq_dec : EqDecision exn.
Proof. solve_decision. Defined.

(** [t[i]] on a tuple, for the non-negative literal subscripts of the source. *)
Definition subscript (t : list Z) (i : nat) : res Z :=
  match t !! i with
  | Some c => Ok c
  | None => Raise IndexError
  end.

(** ** Python floats *)

(** [float(n)] for an [int]: the nearest binary64, ties to even. *)
Definition float_of_int (z : Z) : float :=
  SF2Prim (binary_normalize prec emax z 0 false).

(** [int(f)]: truncation toward zero.  A finite [f] is
    [m * 2^(e - 53)] with [m] its 53-bit integer mantissa (the mantissa of
    the normalised fraction) and [e] its binary exponent; [Z.shiftl] by a
    negative amount shifts right, which truncates.  [int(nan)] raises
    [ValueError] and [int(inf)] raises [OverflowError]. *)
Definition int_of_float (f : float) : res Z :=
  if PrimFloat.is_nan f then Raise ValueError
  else if PrimFloat.is_infinity f then Raise OverflowError
  else
    let (m, se) := PrimFloat.frshiftexp f in
    let k := Uint63.to_Z (PrimFloat.normfr_mantissa m) in
    let e := Uint63.to_Z se - FloatOps.shift - FloatOps.prec in
    let a := Z.shiftl k e in
    Ok (if PrimFloat.get_sign f then - a else a).

(** [a / b] on two [int]s whose absolute values are below [2^53] (every
    [int] of this program is): both convert exactly and the quotient is
    rounded once. *)
Definition true_div (a b : Z) : res float :=
  if b =? 0 then Raise ZeroDivisionError
  else Ok (PrimFloat.div (float_of_int a) (float_of_int b)).

(** [int(c * x)] for an [int] [c] and a [float] [x]. *)
Definition int_mul_if (c : Z) (x : float) : res Z :=
  int_of_float (PrimFloat.mul (float_of_int c) x).

(** [int(x * c)] for a [float] [x] and an [int] [c]. *)
Definition int_mul_fi (x : float) (c : Z) : res Z :=
  int_of_float (PrimFloat.mul x (float_of_int c)).

(** *** True division of two non-negative [int]s of any size

    [a / b] on two [int]s is the binary64 nearest to the exact quotient,
    ties to even, whatever the size of [a] and [b]; a quotient of [2^1024]
    or more raises [OverflowError], a division by zero
    [ZeroDivisionError].  Every finite binary64 is a multiple of [2^-1074],
    so the quotient is computed on [a * 2^1074]. *)

(** [n / d] rounded to the nearest integer, ties to even ([d > 0]). *)
Definition rne (n d : Z) : Z :=
  let m := n / d in
  match 2 * (n mod d) ?= d with
  | Lt => m
  | Gt => m + 1
  | Eq => if Z.even m then m else m + 1
  end.

(** The exponent of the last mantissa bit of [a / b], above [-1074]: with
    it the mantissa has 53 bits, or the result is subnormal and it is 0. *)
Definition quotient_shift (a b : Z) : Z :=
  Z.max (Z.log2 (a * 2 ^ 1074 / b) - 52) 0.

(** The binary64 nearest to [a / b], for [a >= 0] and [b > 0], in canonical
    form: mantissa and exponent. *)
Definition round_ratio (a b : Z) : spec_float :=
  let E := quotient_shift a b in
  let m := rne (a * 2 ^ 1074) (b * 2 ^ E) in
  if m =? 0 then S754_zero false
  else if m =? 2 ^ 53 then S754_finite false (Z.to_pos (2 ^ 52)) (E + 1 - 1074)
  else S754_finite false (Z.to_pos m) (E - 1074).

(** [a / b] for two non-negative [int]s. *)
Definition int_true_div (a b : nat) : res float :=
  if (b =? 0)%nat then Raise ZeroDivisionError
  else
    match round_ratio (Z.of_nat a) (Z.of_nat b) with
    | S754_finite s m e =>
        if 971 <? e then Raise OverflowError
        else Ok (SF2Prim (S754_finite s m e))
    | x => Ok (SF2Prim x)
    end.

(** [tuple(int(brightness * c) for c in target_color)] *)
Fixpoint scale_all (brightness : float) (target_color : list Z) : res (list Z) :=
  match target_color with
  | [] => Ok []
  | c :: cs =>
      v ← int_mul_fi brightness c;
      vs ← scale_all brightness cs;
      Ok (v :: vs)
  end.

(** [r, g, b = pixel[:3]] *)
Definition unpack3 (pixel : list Z) : res (Z * Z * Z) :=
  match take 3 pixel with
  | [r; g; b] => Ok (r, g, b)
  | _ => Raise ValueError
  end.

(** ** [bitmap_converter.py] *)

Module BitmapConverter.

Definition transform_color (pixel : pyval) (target_color : list Z) : res pyval :=
  match pixel with
  | PInt p =>
      brightness ← true_div p 255;
      cs ← scale_all brightness target_color;
      Ok (PTuple cs)
  | PTuple px =>
      '(r, g, b) ← unpack3 px;
      brightness ← true_div (r + g + b) (255 * 3);
      t0 ← subscript target_color 0;
      new_r ← int_mul_if t0 brightness;
      t1 ← subscript target_color 1;
      new_g ← int_mul_if t1 brightness;
      t2 ← subscript target_color 2;
      new_b ← int_mul_if t2 brightness;
      if 3 <? Z.of_nat (length px) then
        a ← subscript px 3;
        Ok (PTuple [new_r; new_g; new_b; a])
      else Ok (PTuple [new_r; new_g; new_b])
  end.

End BitmapConverter.

(** ** [streamlit_app.py]: [transform_color] *)

Module StreamlitApp.

(** The [st.cache_data] decorator memoises the function on its arguments;
    the function is pure, so the decorated function computes the same
    value. *)
Definition transform_color (pixel : pyval) (target_color : list Z) : res pyval :=
  match pixel with
  | PInt p =>
      if p =? 255 then Ok (PInt 255)
      else
        brightness ← true_div p 255;
        cs ← scale_all brightness target_color;
        Ok (PTuple cs)
  | PTuple px =>
      if Z.of_nat (length px) =? 4 then
        match px with
        | [r; g; b; a] =>
            if (r =? 255) && (g =? 255) && (b =? 255)
            then Ok (PTuple [255; 255; 255; a])
            else
              brightness ← true_div (r + g + b) (255 * 3);
              t0 ← subscript target_color 0;
              new_r ← int_mul_if t0 brightness;
              t1 ← subscript target_color 1;
              new_g ← int_mul_if t1 brightness;
              t2 ← subscript target_color 2;
              new_b ← int_mul_if t2 brightness;
              Ok (PTuple [new_r; new_g; new_b; a])
        | _ => Raise ValueError
        end
      else
        '(r, g, b) ← unpack3 px;
        if (r =? 255) && (g =? 255) && (b =? 255)
        then Ok (PTuple [255; 255; 255])
        else
          brightness ← true_div (r + g + b) (255 * 3);
          t0 ← subscript target_color 0;
          new_r ← int_mul_if t0 brightness;
          t1 ← subscript target_color 1;
          new_g ← int_mul_if t1 brightness;
          t2 ← subscript target_color 2;
          new_b ← int_mul_if t2 brightness;
          Ok (PTuple [new_r; new_g; new_b])
  end.

(** ** [streamlit_app.py]: images and [process_image] *)

(** The part of a [PIL.Image] the program uses: its mode, its size and its
    pixels, [rows !! y !! x] being the pixel at [(x, y)]. *)
Record image : Type := Image {
  mode : string;
  width : nat;
  height : nat;
  rows : list (list pyval)
}.

(** The colour a new image is filled with: 0 in every band. *)
Definition blank (m : string) : pyval :=
  if String.eqb m "RGBA" then PTuple [0; 0; 0; 0]
  else if String.eqb m "RGB" then PTuple [0; 0; 0]
  else PInt 0.

(** [Image.new(mode, (width, height))] *)
Definition Image_new (m : string) (w h : nat) : image :=
  Image m w h (replicate h (replicate w (blank m))).

(** [img.getpixel((x, y))]; a coordinate outside the image raises. *)
Definition getpixel (img : image) (x y : nat) : res pyval :=
  match rows img !! y with
  | Some row =>
      match row !! x with
      | Some p => Ok p
      | None => Raise IndexError
      end
  | None => Raise IndexError
  end.

(** [img.putpixel((x, y), value)]; a coordinate outside the image raises. *)
Definition putpixel (img : image) (x y : nat) (value : pyval) : res image :=
  match rows img !! y with
  | Some row =>
      if decide (x < length row)%nat
      then Ok (Image (mode img) (width img) (height img)
                 (<[y := <[x := value]> row]> (rows img)))
      else Raise IndexError
  | None => Raise IndexError
  end.

(** A [for x in xs:] loop whose body may raise; the loop stops at the first
    exception. *)
Fixpoint for_each {S : Type} (xs : list nat) (body : nat -> S -> res S) (s : S)
  : res S :=
  match xs with
  | [] => Ok s
  | x :: xs' => s' ← body x s; for_each xs' body s'
  end.

(** The body of the inner loop, lines 71-73. *)
Definition pixel_step (img : image) (target_color : list Z) (y x : nat)
    (new_img : image) : res image :=
  pixel ← getpixel img x y;
  new_pixel ← transform_color pixel target_color;
  putpixel new_img x y new_pixel.

(** [(y * width * 100) / total_pixels], line 76: the true division of two
    [int]s, a binary64. *)
Definition progress_value (y w total_pixels : nat) : res float :=
  int_true_div (y * w * 100) total_pixels.

(** A progress callback receives a percentage and may itself raise. *)
Definition callback : Type := float -> res unit.

(** The outer loop, lines 69-77.  Besides the image under construction the
    loop threads the trace of the values passed to the callback so far; the
    trace survives an exception. *)
Fixpoint row_loop (img : image) (target_color : list Z)
    (progress_callback : option callback) (total_pixels : nat)
    (ys : list nat) (new_img : image) (trace : list float)
  : list float * res image :=
  match ys with
  | [] => (trace, Ok new_img)
  | y :: ys' =>
      match for_each (seq 0 (width img)) (pixel_step img target_color y) new_img with
      | Raise e => (trace, Raise e)
      | Ok new_img' =>
          match progress_callback with
          | Some f =>
              if (y mod 10 =? 0)%nat then
                match progress_value y (width img) total_pixels with
                | Raise e => (trace, Raise e)
                | Ok progress =>
                    match f progress with
                    | Raise e => (trace ++ [progress], Raise e)
                    | Ok _ =>
                        row_loop img target_color progress_callback total_pixels
                          ys' new_img' (trace ++ [progress])
                    end
                end
              else
                row_loop img target_color progress_callback total_pixels
                  ys' new_img' trace
          | None =>
              row_loop img target_color progress_callback total_pixels
                ys' new_img' trace
          end
      end
  end.

Section Pillow.

(** [img.convert(mode)] belongs to Pillow; the program only relies on it
    returning an image. *)
Variable Image_convert : image -> string -> image.

(** Lines 59-63: RGBA for the modes that carry transparency, RGB otherwise. *)
Definition normalise (img : image) : image :=
  if negb (String.eqb (mode img) "RGB" || String.eqb (mode img) "RGBA") then
    if String.eqb (mode img) "P" || String.eqb (mode img) "LA"
       || String.eqb (mode img) "PA"
    then Image_convert img "RGBA"
    else Image_convert img "RGB"
  else img.

(** [process_image]: the trace of the progress callback and the returned
    image; the [except] clause reports the error and returns [None]. *)
Definition process_image (img : image) (target_color : list Z)
    (progress_callback : option callback) : list float * option image :=
  let img := normalise img in
  let total_pixels := (width img * height img)%nat in
  let '(trace, r) :=
    row_loop img target_color progress_callback total_pixels
      (seq 0 (height img)) (Image_new (mode img) (width img) (height img)) [] in
  (trace, match r with Ok new_img => Some new_img | Raise _ => None end).

End Pillow.

(** ** [streamlit_app.py]: the session cache, the batch loop and the archive *)

Definition bytes : Type := list Byte.byte.

(** An uploaded file: its name and its raw content. *)
Record uploaded_file : Type := UploadedFile {
  name : string;
  content : bytes
}.

(** The dictionary stored under a cache key, lines 147-152. *)
Record cache_entry : Type := CacheEntry {
  original : image;
  transformed : image;
  entry_bytes : bytes;
  format : string
}.

(** [st.session_state]: the cache, keyed by [(file name, colour)], and the
    colour it was filled under. *)
Record session_state : Type := SessionState {
  processed_images : gmap (string * string) cache_entry;
  current_color : string
}.

(** Lines 100-102: a new colour empties the cache. *)
Definition select_color (color : string) (st : session_state) : session_state :=
  if decide (color ≠ current_color st)
  then SessionState ∅ color
  else st.

(** The state of the batch loop: the session state, the local list
    [processed_images] of [(name, bytes, format)] results, and, as
    instrumentation, the names of the files [process_image] was called on. *)
Record batch_state : Type := BatchState {
  session : session_state;
  results : list (string * bytes * string);
  transform_calls : list string
}.

(** A ZIP archive under construction: its members in the order written. *)
Definition zip_archive : Type := list (string * bytes).

(** [zip_file.writestr(arcname, data)] appends a member. *)
Definition writestr (z : zip_archive) (arcname : string) (data : bytes)
  : zip_archive :=
  z ++ [(arcname, data)].

(** [zip_file.read(arcname)]: the member written last under that name. *)
Fixpoint zip_read (z : zip_archive) (arcname : string) : option bytes :=
  match z with
  | [] => None
  | (n, d) :: z' =>
      match zip_read z' arcname with
      | Some d' => Some d'
      | None => if decide (n = arcname) then Some d else None
      end
  end.

(** Lines 189-192: the loop that fills the archive. *)
Definition build_archive (processed : list (string * bytes * string))
  : zip_archive :=
  foldl (fun z '(filename, image_data, _) =>
           writestr z ("transformed_" +:+ filename) image_data)
        [] processed.

(** Line 188: an archive is built for more than one result only. *)
Definition main_archive (processed : list (string * bytes * string))
  : option zip_archive :=
  if (1 <? length processed)%nat then Some (build_archive processed) else None.

Section Batch.

(** Pillow's decoder and encoders, and the colour parser of line 105. *)
Variable Image_convert : image -> string -> image.
Variable Image_open : uploaded_file -> image.
Variable save_bmp : image -> bytes.
Variable parse_color : string -> list Z.

(** [update_progress]: hands the percentage to the progress bar. *)
Definition update_progress : callback := fun _ => Ok tt.

(** One iteration of the loop over the uploaded files, lines 133-161. *)
Definition batch_step (color : string) (bs : batch_state) (f : uploaded_file)
  : batch_state :=
  let target_color := parse_color color in
  let cache_key := (name f, color) in
  let bs1 :=
    match processed_images (session bs) !! cache_key with
    | None =>
        let original_img := Image_open f in
        let transformed_img :=
          snd (process_image Image_convert original_img target_color
                 (Some update_progress)) in
        let calls := transform_calls bs ++ [name f] in
        match transformed_img with
        | Some t =>
            let entry := CacheEntry original_img t (save_bmp t) "BMP" in
            BatchState
              (SessionState
                 (<[cache_key := entry]> (processed_images (session bs)))
                 (current_color (session bs)))
              (results bs) calls
        | None => BatchState (session bs) (results bs) calls
        end
    | Some _ => bs
    end in
  match processed_images (session bs1) !! cache_key with
  | Some img_data =>
      BatchState (session bs1)
        (results bs1 ++ [(name f, entry_bytes img_data, format img_data)])
        (transform_calls bs1)
  | None => bs1
  end.

(** The loop over the uploaded files, lines 128-179. *)
Definition batch_loop (color : string) (st : session_state)
    (uploaded_files : list uploaded_file) : batch_state :=
  foldl (batch_step color) (BatchState st [] []) uploaded_files.

(** One run of [main]: the colour check, the loop, the archive. *)
Definition main (color : string) (uploaded_files : list uploaded_file)
    (st : session_state) : batch_state * option zip_archive :=
  let bs := batch_loop color (select_color color st) uploaded_files in
  (bs, main_archive (results bs)).

End Batch.

End StreamlitApp.

(** ** Checking the channel arithmetic over its whole finite domain *)

(** The channel values are decided by primitive operations only, so that
    the check of all [256 * 766] (target channel, channel sum) pairs is
    cheap; the lemmas below carry the result back to [float_of_int] and
    [int_of_float]. *)

(** [shift + prec]: the exponent of [frshiftexp] at which the mantissa is
    the integer part. *)
Definition exp_bias : int := 2154%uint63.

(** [int(p)] for a finite [p >= 0] below [2^53], on primitive integers. *)
Definition fast_trunc (p : float) : option int :=
  if PrimFloat.is_nan p then None
  else if PrimFloat.is_infinity p then None
  else if PrimFloat.get_sign p then None
  else
    let (m, se) := PrimFloat.frshiftexp p in
    if (se <=? exp_bias)%uint63
    then Some (PrimFloat.normfr_mantissa m >> (exp_bias - se))%uint63
    else None.

(** [P i && P (i + 1) && ... && P (i + n - 1)] *)
Fixpoint all_upto (n : nat) (i : int) (P : int -> bool) : bool :=
  match n with
  | O => true
  | S n' => P i && all_upto n' (i + 1)%uint63 P
  end.

(** [c] is the floor of [x / d], or one less when [d] divides [x]. *)
Definition near_floor (d x c : Z) : Prop :=
  c = x / d \/ (c = x / d - 1 /\ x mod d = 0).

(** [near_floor] decided on primitive integers. *)
Definition near_floorb (d x c : int) : bool :=
  ((c =? x / d) || ((c =? x / d - 1) && (0 <? x / d) && (x mod d =? 0)))%uint63.

(** [int(t * (s / d))] is near the floor of [t * s / d]. *)
Definition chan_check (d s t : int) : bool :=
  match fast_trunc (PrimFloat.mul (of_uint63 t)
                      (PrimFloat.div (of_uint63 s) (of_uint63 d))) with
  | Some c => near_floorb d (t * s)%uint63 c
  | None => false
  end.

(** The check for every [s < ns] and [t < nt]. *)
Definition chan_table (d : int) (ns nt : nat) : bool :=
  all_upto ns 0%uint63 (fun s => all_upto nt 0%uint63 (chan_check d s)).

(** [v / 255] and [(v + v + v) / (255 * 3)] are the same float: 256 cases. *)
Definition gray_check (v : int) : bool :=
  PrimFloat.Leibniz.eqb
    (PrimFloat.div (of_uint63 v) (of_uint63 255))
    (PrimFloat.div (of_uint63 (v + v + v)) (of_uint63 765)).

(** A colour channel, 0 to 255. *)
Definition channel (c : Z) : Prop := 0 <= c <= 255.

(** Rounding to the nearest integer of [t * s / 765], what the specification
    calls [round(targetChannel * brightness)]; [765] is odd, so the exact
    value is never half-way between two integers. *)
Definition spec_round_channel (t s : Z) : Z := (2 * t * s + 765) / (2 * 765).

(** The alpha band of a four-band pixel. *)
Definition alpha_of (pixel : pyval) : option Z :=
  match pixel with
  | PTuple [_; _; _; a] => Some a
  | _ => None
  end.

(** The percentage reported after row [y] of an image of size [w] by [h]:
    the binary64 nearest to [y * w * 100 / (w * h)]. *)
Definition percent_of_row (w h y : nat) : float :=
  SF2Prim (round_ratio (Z.of_nat (y * w * 100)) (Z.of_nat (w * h))).

(** The pixel at [(x, y)] recoloured, before it is stored. *)
Definition recolour_at (img : StreamlitApp.image) (target_color : list Z)
    (x y : nat) : res pyval :=
  pixel ← StreamlitApp.getpixel img x y;
  StreamlitApp.transform_color pixel target_color.

(** The last element of a trace. *)
Definition final_percent (trace : list float) : option float := last trace.

(** What one run of the outer loop adds to the trace: percentages of rows
    of the range that are multiples of 10, in increasing order. *)
Definition reported (w h lo n : nat) (p : float) : Prop :=
  exists y, (lo <= y < lo + n)%nat /\ (y mod 10 = 0)%nat
            /\ (w * h)%nat <> 0%nat /\ p = percent_of_row w h y.

(** The archive member a result becomes. *)
Definition member_of (r : string * StreamlitApp.bytes * string)
  : string * StreamlitApp.bytes :=
  let '(filename, image_data, _) := r in ("transformed_" +:+ filename, image_data).

(** The file name of a result. *)
Definition result_name (r : string * StreamlitApp.bytes * string) : string :=
  r.1.1.

(** Sample data: images of one pixel and of 25 rows, an image whose only
    pixel has two bands, and stand-ins for Pillow. *)
Definition one_pixel : StreamlitApp.image :=
  StreamlitApp.Image "RGB" 1 1 [[PTuple [0; 0; 0]]].

Definition column_25 : StreamlitApp.image :=
  StreamlitApp.Image "RGB" 1 25 (replicate 25 [PTuple [10; 20; 30]]).

Definition two_band_pixel : StreamlitApp.image :=
  StreamlitApp.Image "RGB" 1 1 [[PTuple [1; 2]]].

Definition keep_mode (img : StreamlitApp.image) (m : string) : StreamlitApp.image :=
  img.

Definition no_bytes (img : StreamlitApp.image) : StreamlitApp.bytes := [].

Definition always_red (color : string) : list Z := [255; 0; 0].

(** Every cached file and every served result was transformed in this run. *)
Definition all_fresh (bs : StreamlitApp.batch_state) : Prop :=
  (forall n c, is_Some (StreamlitApp.processed_images (StreamlitApp.session bs) !! (n, c)) ->
               n ∈ StreamlitApp.transform_calls bs)
  /\ (forall r, r ∈ StreamlitApp.results bs -> result_name r ∈ StreamlitApp.transform_calls bs).

Definition sample_file : StreamlitApp.uploaded_file :=
  StreamlitApp.UploadedFile "a.bmp" [].

Definition sample_entry : StreamlitApp.cache_entry :=
  StreamlitApp.CacheEntry one_pixel one_pixel [Byte.x42] "BMP".

(** A session whose cache holds ["a.bmp"] under the colour ["#FF0000"]. *)
Definition warm_session : StreamlitApp.session_state :=
  StreamlitApp.SessionState {[ ("a.bmp", "#FF0000") := sample_entry ]} "#FF0000".

Definition cold_session : StreamlitApp.session_state :=
  StreamlitApp.SessionState ∅ "#FF0000".

Definition open_one_pixel (f : StreamlitApp.uploaded_file) : StreamlitApp.image :=
  one_pixel.

Definition open_two_band (f : StreamlitApp.uploaded_file) : StreamlitApp.image :=
  two_band_pixel.

(** ** Binary64 values as scaled integers *)

(** A non-negative finite value as a multiple of [2^-1074]. *)
Definition sval (x : spec_float) : Z :=
  match x with
  | S754_finite false m e => Z.pos m * 2 ^ (e + 1074)
  | _ => 0
  end.

(** A non-negative zero or finite value in canonical form: 53 mantissa
    bits, or fewer at the least exponent. *)
Definition nncanon (x : spec_float) : Prop :=
  match x with
  | S754_zero false => True
  | S754_finite false m e =>
      -1074 <= e /\ Z.pos m < 2 ^ 53 /\ (-1074 < e -> 2 ^ 52 <= Z.pos m)
  | _ => False
  end.

(** The exponent is within the range of binary64. *)
Definition exponent_ok (x : spec_float) : Prop :=
  match x with S754_finite _ _ e => e <= 971 | _ => True end.

(** 100 as mantissa and exponent. *)
Definition sf_100 : spec_float := S754_finite false 7036874417766400 (-46).

(** [p <= q] on floats, as a relation. *)
Definition float_le (p q : float) : Prop := PrimFloat.leb p q = true.

(** An image of 2 columns and 11 rows. *)
Definition two_by_eleven : StreamlitApp.image :=
  StreamlitApp.Image "RGB" 2 11
    (replicate 11 [PTuple [10; 20; 30]; PTuple [40; 50; 60]]).

(** An RGB image of two columns and three rows, and an RGBA image of two
    columns and two rows, with pixels that differ from one another. *)
Definition six_pixels : StreamlitApp.image :=
  StreamlitApp.Image "RGB" 2 3
    [[PTuple [10; 20; 30]; PTuple [40; 50; 60]];
     [PTuple [0; 0; 0]; PTuple [200; 100; 50]];
     [PTuple [255; 255; 254]; PTuple [128; 128; 128]]].

Definition four_rgba : StreamlitApp.image :=
  StreamlitApp.Image "RGBA" 2 2
    [[PTuple [10; 20; 30; 255]; PTuple [40; 50; 60; 0]];
     [PTuple [255; 254; 255; 17]; PTuple [128; 128; 128; 200]]].

(** ** Further checks of the channel arithmetic *)

(** [int(t * (s / d))] on primitive integers. *)
Definition chan_fast (d s t : int) : option int :=
  fast_trunc (PrimFloat.mul (of_uint63 t)
                (PrimFloat.div (of_uint63 s) (of_uint63 d))).

(** [a <= b] for two computed channels. *)
Definition opt_le (a b : option int) : bool :=
  match a, b with
  | Some x, Some y => (x <=? y)%uint63
  | _, _ => false
  end.

(** For a channel sum [s] and a target channel [t]: the scaled channel is
    at most [t], is 0 for the sum 0 and [t] for the sum [d], and does not
    decrease when the sum or the target channel grows by one. *)
Definition shape_check (d s t : int) : bool :=
  match chan_fast d s t with
  | Some c =>
      (c <=? t)%uint63
      && (if (s =? 0)%uint63 then (c =? 0)%uint63 else true)
      && (if (s =? d)%uint63 then (c =? t)%uint63 else true)
      && opt_le (Some c) (chan_fast d (s + 1)%uint63 t)
      && opt_le (Some c) (chan_fast d s (t + 1)%uint63)
  | None => false
  end.

Definition shape_table (d : int) (ns nt : nat) : bool :=
  all_upto ns 0%uint63 (fun s => all_upto nt 0%uint63 (shape_check d s)).

(** The channel [int(t * (s / 765))], 0 should the conversion raise. *)
Definition scaled (t s : Z) : Z :=
  match int_mul_if t (PrimFloat.div (float_of_int s) (float_of_int 765)) with
  | Ok c => c
  | Raise _ => 0
  end.

(** The number of bands of a pixel value. *)
Definition bands (p : pyval) : nat :=
  match p with
  | PInt _ => 1
  | PTuple cs => length cs
  end.

(** A pixel of an 8-bit image: a grayscale value, or three or four bands,
    each a channel. *)
Definition valid_pixel (p : pyval) : Prop :=
  match p with
  | PInt v => channel v
  | PTuple cs => (length cs = 3 \/ length cs = 4)%nat /\ Forall channel cs
  end.

(** A target colour: three channels. *)
Definition valid_target (target_color : list Z) : Prop :=
  length target_color = 3%nat /\ Forall channel target_color.

(** ** [bitmap_converter.py]: [process_image] *)

(** The single-image variant works on the same images.  It converts every
    mode other than RGB and RGBA to RGB, walks the image column by column,
    and has no [try]: an exception leaves the function. *)
Module BitmapImage.

Section Pillow.

Variable Image_convert : StreamlitApp.image -> string -> StreamlitApp.image.

(** Lines 32-33. *)
Definition normalise (img : StreamlitApp.image) : StreamlitApp.image :=
  if negb (String.eqb (StreamlitApp.mode img) "RGB"
           || String.eqb (StreamlitApp.mode img) "RGBA")
  then Image_convert img "RGB"
  else img.

(** The body of the inner loop, lines 40-42. *)
Definition pixel_step (img : StreamlitApp.image) (target_color : list Z)
    (x y : nat) (new_img : StreamlitApp.image) : res StreamlitApp.image :=
  pixel ← StreamlitApp.getpixel img x y;
  new_pixel ← BitmapConverter.transform_color pixel target_color;
  StreamlitApp.putpixel new_img x y new_pixel.

(** [process_image], lines 30-44. *)
Definition process_image (img : StreamlitApp.image) (target_color : list Z)
  : res StreamlitApp.image :=
  let img := normalise img in
  let width := StreamlitApp.width img in
  let height := StreamlitApp.height img in
  StreamlitApp.for_each (seq 0 width)
    (fun x new_img =>
       StreamlitApp.for_each (seq 0 height)
         (pixel_step img target_color x) new_img)
    (StreamlitApp.Image_new (StreamlitApp.mode img) width height).

End Pillow.

End BitmapImage.

(** ** Shapes of images *)

(** The pixel at [(x, y)] recoloured by [tc]. *)
Definition recolour_with (tc : pyval -> list Z -> res pyval)
    (img : StreamlitApp.image) (target_color : list Z) (x y : nat) : res pyval :=
  pixel ← StreamlitApp.getpixel img x y;
  tc pixel target_color.

(** The rows of an image agree with its size. *)
Definition well_formed (img : StreamlitApp.image) : Prop :=
  length (StreamlitApp.rows img) = StreamlitApp.height img
  /\ Forall (fun row => length row = StreamlitApp.width img)
       (StreamlitApp.rows img).

(** Two images of the same mode and size. *)
Definition same_shape (a b : StreamlitApp.image) : Prop :=
  StreamlitApp.mode a = StreamlitApp.mode b
  /\ StreamlitApp.width a = StreamlitApp.width b
  /\ StreamlitApp.height a = StreamlitApp.height b.

(** [new] is [old] with some pixels set to their required value [R]: a
    pixel of [S] holds its required value, every other pixel holds it or is
    the pixel of [old]. *)
Definition painted (R : nat -> nat -> res pyval) (S : nat -> nat -> Prop)
    (old new : StreamlitApp.image) : Prop :=
  well_formed new /\ same_shape new old
  /\ (forall x y, S x y -> StreamlitApp.getpixel new x y = R x y)
  /\ (forall x y, StreamlitApp.getpixel new x y = R x y
               \/ StreamlitApp.getpixel new x y = StreamlitApp.getpixel old x y).

(** A well-formed image of width [w] and height [h]. *)
Definition has_size (w h : nat) (img : StreamlitApp.image) : Prop :=
  well_formed img /\ StreamlitApp.width img = w /\ StreamlitApp.height img = h.

(** The rows after which the batch variant reports progress. *)
Definition reporting_rows (lo n : nat) : list nat :=
  filter (fun y => (y mod 10 = 0)%nat) (seq lo n).

(** The trace of a run over the rows [lo .. lo + n - 1] that ends
    normally. *)
Definition full_trace (cb : option StreamlitApp.callback) (w h lo n : nat)
  : list float :=
  match cb with
  | Some _ => percent_of_row w h <$> reporting_rows lo n
  | None => []
  end.

(** The callback never raises. *)
Definition callback_returns (cb : option StreamlitApp.callback) : Prop :=
  forall f p, cb = Some f -> is_ok (f p) = true.

(** Every pixel of the image can be read, is a valid pixel and has [band]
    bands. *)
Definition pixels_valid (band : nat) (img : StreamlitApp.image) : Prop :=
  forall x y, (x < StreamlitApp.width img)%nat ->
              (y < StreamlitApp.height img)%nat ->
  exists p, StreamlitApp.getpixel img x y = Ok p
            /\ valid_pixel p /\ bands p = band.

(** An RGB image of three-band pixels or an RGBA image of four-band
    pixels. *)
Definition valid_image (img : StreamlitApp.image) : Prop :=
  (StreamlitApp.mode img = "RGB" /\ pixels_valid 3 img)
  \/ (StreamlitApp.mode img = "RGBA" /\ pixels_valid 4 img).

(** No pixel of the image is pure white. *)
Definition no_white_pixel (img : StreamlitApp.image) : Prop :=
  forall x y r g b rest,
    StreamlitApp.getpixel img x y = Ok (PTuple (r :: g :: b :: rest)) ->
    ~ (r = 255 /\ g = 255 /\ b = 255).

(** An image of width 0. *)
Definition no_columns : StreamlitApp.image :=
  StreamlitApp.Image "RGB" 0 3 [[]; []; []].

(** ** The batch loop: what is served, and the overall progress *)

(** The result the loop appends for a file whose key is in the cache. *)
Definition served (color : string)
    (cache : gmap (string * string) StreamlitApp.cache_entry)
    (f : StreamlitApp.uploaded_file)
  : option (string * StreamlitApp.bytes * string) :=
  e ← cache !! (StreamlitApp.name f, color);
  Some (StreamlitApp.name f, StreamlitApp.entry_bytes e, StreamlitApp.format e).

(** Every key of the cache carries the colour of the session. *)
Definition single_colour (st : StreamlitApp.session_state) : Prop :=
  forall n c, is_Some (StreamlitApp.processed_images st !! (n, c)) ->
              c = StreamlitApp.current_color st.

(** [int((idx + 1) * 100 / len(uploaded_files))], line 179.  The model
    takes the integer part of the exact quotient; it is the integer part of
    the binary64 quotient for every list of fewer than [2^46] files. *)
Definition overall_progress (idx len : nat) : res Z :=
  if (len =? 0)%nat then Raise ZeroDivisionError
  else Ok (Qfloor (Z.of_nat ((idx + 1) * 100) # Pos.of_nat len)).

(** ** The batch loop when a file cannot be opened *)

(** [Image.open], line 136, stands outside the [try] of [process_image]:
    when it raises, the exception leaves [main] and the batch ends.  Here
    the decoder returns an image or raises, and the loop is the loop of
    [batch_step] with that exception threaded through. *)
Section RaisingDecoder.

Variable Image_convert : StreamlitApp.image -> string -> StreamlitApp.image.
Variable Image_open : StreamlitApp.uploaded_file -> res StreamlitApp.image.
Variable save_bmp : StreamlitApp.image -> StreamlitApp.bytes.
Variable parse_color : string -> list Z.

(** One iteration, lines 133-161. *)
Definition batch_step_raising (color : string) (bs : StreamlitApp.batch_state)
    (f : StreamlitApp.uploaded_file) : res StreamlitApp.batch_state :=
  let target_color := parse_color color in
  let cache_key := (StreamlitApp.name f, color) in
  bs1 ← match StreamlitApp.processed_images (StreamlitApp.session bs) !! cache_key with
        | None =>
            original_img ← Image_open f;
            let transformed_img :=
              snd (StreamlitApp.process_image Image_convert original_img
                     target_color (Some StreamlitApp.update_progress)) in
            let calls := StreamlitApp.transform_calls bs ++ [StreamlitApp.name f] in
            match transformed_img with
            | Some t =>
                let entry :=
                  StreamlitApp.CacheEntry original_img t (save_bmp t) "BMP" in
                Ok (StreamlitApp.BatchState
                      (StreamlitApp.SessionState
                         (<[cache_key := entry]>
                            (StreamlitApp.processed_images (StreamlitApp.session bs)))
                         (StreamlitApp.current_color (StreamlitApp.session bs)))
                      (StreamlitApp.results bs) calls)
            | None =>
                Ok (StreamlitApp.BatchState (StreamlitApp.session bs)
                      (StreamlitApp.results bs) calls)
            end
        | Some _ => Ok bs
        end;
  match StreamlitApp.processed_images (StreamlitApp.session bs1) !! cache_key with
  | Some img_data =>
      Ok (StreamlitApp.BatchState (StreamlitApp.session bs1)
            (StreamlitApp.results bs1
               ++ [(StreamlitApp.name f, StreamlitApp.entry_bytes img_data,
                    StreamlitApp.format img_data)])
            (StreamlitApp.transform_calls bs1))
  | None => Ok bs1
  end.

(** The loop over the uploaded files; it stops at the first exception. *)
Fixpoint batch_files_raising (color : string)
    (uploaded_files : list StreamlitApp.uploaded_file)
    (bs : StreamlitApp.batch_state) : res StreamlitApp.batch_state :=
  match uploaded_files with
  | [] => Ok bs
  | f :: rest =>
      bs' ← batch_step_raising color bs f;
      batch_files_raising color rest bs'
  end.

Definition batch_loop_raising (color : string) (st : StreamlitApp.session_state)
    (uploaded_files : list StreamlitApp.uploaded_file)
  : res StreamlitApp.batch_state :=
  batch_files_raising color uploaded_files (StreamlitApp.BatchState st [] []).

(** The image of a file that opens; the empty image stands for the others. *)
Definition opened (f : StreamlitApp.uploaded_file) : StreamlitApp.image :=
  match Image_open f with
  | Ok img => img
  | Raise _ => StreamlitApp.Image_new "RGB" 0 0
  end.

End RaisingDecoder.

(** A decoder for the sample batch: ["bad.bmp"] opens as an image whose
    transform fails, ["junk.bmp"] does not open, any other file opens as
    the image of one pixel. *)
Definition open_by_name (f : StreamlitApp.uploaded_file) : res StreamlitApp.image :=
  if String.eqb (StreamlitApp.name f) "bad.bmp" then Ok two_band_pixel
  else if String.eqb (StreamlitApp.name f) "junk.bmp" then Raise ValueError
  else Ok one_pixel.

Definition bad_file : StreamlitApp.uploaded_file :=
  StreamlitApp.UploadedFile "bad.bmp" [].

Definition junk_file : StreamlitApp.uploaded_file :=
  StreamlitApp.UploadedFile "junk.bmp" [].
(** ** The float conversions on sample values *)

#[warnings="-inexact-float"]
Example brightness_of_the_sample_pixel :
  true_div (200 + 100 + 50) (255 * 3) = Ok 0.45751633986928103%float.
Proof. vm_compute. reflexivity. Qed.

#[warnings="-inexact-float"]
Example int_truncates_toward_zero :
  int_of_float 116.66666666666666%float = Ok 116
  /\ int_of_float (-2.5)%float = Ok (-2)
  /\ int_of_float 0.999%float = Ok 0
  /\ int_of_float (-0)%float = Ok 0
  /\ int_of_float 1e20%float = Ok 100000000000000000000.
Proof. vm_compute. auto. Qed.

Example int_of_non_finite :
  int_of_float PrimFloat.nan = Raise ValueError
  /\ int_of_float PrimFloat.infinity = Raise OverflowError.
Proof. vm_compute. auto. Qed.

Example float_of_int_rounds_to_even :
  float_of_int (2 ^ 53 + 1) = float_of_int (2 ^ 53)
  /\ float_of_int (-3) = (-3)%float.
Proof. vm_compute. auto. Qed.

(** ** Lemmas on the float conversions *)

Lemma float_of_int_to_Z (i : int) : float_of_int (Uint63.to_Z i) = of_uint63 i.
Proof.
  unfold float_of_int. rewrite <- of_uint63_spec. apply SF2Prim_Prim2SF.
Qed.

Lemma float_of_int_small (z : Z) :
  0 <= z < wB -> float_of_int z = of_uint63 (Uint63.of_Z z).
Proof.
  intros Hz. rewrite <- float_of_int_to_Z, of_Z_spec, Z.mod_small; auto.
Qed.

Lemma fast_trunc_sound (p : float) (c : int) :
  fast_trunc p = Some c -> int_of_float p = Ok (Uint63.to_Z c).
Proof.
  unfold fast_trunc, int_of_float.
  destruct (PrimFloat.is_nan p); [discriminate|].
  destruct (PrimFloat.is_infinity p); [discriminate|].
  destruct (PrimFloat.get_sign p); [discriminate|].
  destruct (PrimFloat.frshiftexp p) as [m se].
  destruct (se <=? exp_bias)%uint63 eqn:Hle; [|discriminate].
  intros [= <-]. f_equal.
  apply Uint63.leb_spec in Hle. change (Uint63.to_Z exp_bias) with 2154 in Hle.
  pose proof (Uint63.to_Z_bounded se) as Hse.
  rewrite Uint63.lsr_spec, Uint63.sub_spec.
  change (Uint63.to_Z exp_bias) with 2154.
  rewrite Z.mod_small by (change wB with 9223372036854775808; lia).
  change FloatOps.shift with 2101. change FloatOps.prec with 53.
  replace (Uint63.to_Z se - 2101 - 53) with (- (2154 - Uint63.to_Z se)) by lia.
  rewrite Z.shiftl_opp_r, Z.shiftr_div_pow2 by lia. reflexivity.
Qed.

Lemma all_upto_spec (n : nat) (i : int) (P : int -> bool) :
  all_upto n i P = true ->
  Uint63.to_Z i + Z.of_nat n <= wB ->
  forall j, Uint63.to_Z i <= Uint63.to_Z j < Uint63.to_Z i + Z.of_nat n -> P j = true.
Proof.
  revert i. induction n as [|n IH]; intros i Hall Hb j Hj; [lia|].
  simpl in Hall. apply andb_true_iff in Hall as [Hi Hrest].
  destruct (Z.eq_dec (Uint63.to_Z i) (Uint63.to_Z j)) as [E|NE].
  - apply Uint63.to_Z_inj in E. now subst.
  - assert (Hs : Uint63.to_Z (i + 1)%uint63 = Uint63.to_Z i + 1).
    { rewrite Uint63.add_spec, to_Z_1, Z.mod_small; [reflexivity|].
      pose proof (Uint63.to_Z_bounded i). lia. }
    apply (IH (i + 1)%uint63); [assumption| lia | lia].
Qed.

Lemma near_floorb_sound (d x c : int) :
  near_floorb d x c = true ->
  near_floor (Uint63.to_Z d) (Uint63.to_Z x) (Uint63.to_Z c).
Proof.
  unfold near_floorb, near_floor. intros H.
  apply orb_true_iff in H as [H|H].
  - apply Uint63.eqb_spec in H. subst c. left. apply Uint63.div_spec.
  - apply andb_true_iff in H as [H Hm]. apply andb_true_iff in H as [Hc Hq].
    apply Uint63.eqb_spec in Hc, Hm. apply Uint63.ltb_spec in Hq.
    rewrite to_Z_0, Uint63.div_spec in Hq.
    right. split.
    + subst c. rewrite Uint63.sub_spec, Uint63.div_spec, to_Z_1.
      pose proof (Uint63.to_Z_bounded (x / d)%uint63) as Hb.
      rewrite Uint63.div_spec in Hb. apply Z.mod_small. lia.
    + rewrite <- Uint63.mod_spec, Hm. apply to_Z_0.
Qed.

Lemma chan_check_sound (d s t : int) :
  chan_check d s t = true ->
  Uint63.to_Z t * Uint63.to_Z s < wB ->
  exists c,
    int_mul_if (Uint63.to_Z t)
      (PrimFloat.div (float_of_int (Uint63.to_Z s)) (float_of_int (Uint63.to_Z d)))
    = Ok c
    /\ near_floor (Uint63.to_Z d) (Uint63.to_Z t * Uint63.to_Z s) c.
Proof.
  unfold chan_check, int_mul_if. intros H Hlt.
  rewrite !float_of_int_to_Z.
  destruct (fast_trunc _) as [c|] eqn:Hc; [|discriminate].
  exists (Uint63.to_Z c). split; [now apply fast_trunc_sound|].
  apply near_floorb_sound in H.
  rewrite Uint63.mul_spec, Z.mod_small in H; [exact H|].
  pose proof (Uint63.to_Z_bounded t). pose proof (Uint63.to_Z_bounded s). lia.
Qed.

Lemma chan_table_sound (d : int) (ns nt : nat) (s t : Z) :
  chan_table d ns nt = true ->
  Z.of_nat ns * Z.of_nat nt < wB ->
  0 <= s < Z.of_nat ns -> 0 <= t < Z.of_nat nt ->
  exists c,
    int_mul_if t (PrimFloat.div (float_of_int s) (float_of_int (Uint63.to_Z d))) = Ok c
    /\ near_floor (Uint63.to_Z d) (t * s) c.
Proof.
  intros Htab Hsz Hs Ht. unfold chan_table in Htab.
  assert (Hns : Z.of_nat ns <= wB) by nia.
  assert (Hnt : Z.of_nat nt <= wB) by nia.
  assert (Es : Uint63.to_Z (Uint63.of_Z s) = s)
    by (rewrite of_Z_spec; apply Z.mod_small; lia).
  assert (Et : Uint63.to_Z (Uint63.of_Z t) = t)
    by (rewrite of_Z_spec; apply Z.mod_small; lia).
  pose proof (all_upto_spec _ _ _ Htab) as H1. rewrite to_Z_0 in H1.
  specialize (H1 Hns (Uint63.of_Z s)). rewrite Es in H1. specialize (H1 Hs).
  pose proof (all_upto_spec _ _ _ H1) as H2. rewrite to_Z_0 in H2.
  specialize (H2 Hnt (Uint63.of_Z t)). rewrite Et in H2. specialize (H2 Ht).
  apply chan_check_sound in H2; rewrite ?Es, ?Et in *; [exact H2 | nia].
Qed.

(** All [766 * 256] pairs (channel sum, target channel) of the RGB and
    RGBA paths, where the divisor is [255 * 3]. *)
Lemma chan_table_765 : chan_table 765%uint63 766 256 = true.
Proof. vm_compute. reflexivity. Qed.

Lemma rgb_channel (t s : Z) :
  0 <= t <= 255 -> 0 <= s <= 765 ->
  exists c,
    int_mul_if t (PrimFloat.div (float_of_int s) (float_of_int 765)) = Ok c
    /\ near_floor 765 (t * s) c.
Proof.
  intros Ht Hs.
  apply (chan_table_sound 765%uint63 766 256 s t chan_table_765);
    [reflexivity | simpl; lia | simpl; lia].
Qed.

(** Binary64 multiplication is commutative: the sign, the product of the
    mantissas and the sum of the exponents are. *)
Lemma SFmul_comm (x y : spec_float) :
  SFmul FloatOps.prec FloatOps.emax x y = SFmul FloatOps.prec FloatOps.emax y x.
Proof.
  destruct x as [sx|sx| |sx mx ex], y as [sy|sy| |sy my ey]; simpl;
    rewrite ?(xorb_comm sx sy); try reflexivity.
  now rewrite (Pos.mul_comm mx my), (Z.add_comm ex ey).
Qed.

Lemma float_mul_comm (x y : float) : PrimFloat.mul x y = PrimFloat.mul y x.
Proof.
  apply Prim2SF_inj. rewrite !FloatAxioms.mul_spec. apply SFmul_comm.
Qed.

Lemma int_mul_fi_if (x : float) (c : Z) : int_mul_fi x c = int_mul_if c x.
Proof. unfold int_mul_fi, int_mul_if. now rewrite float_mul_comm. Qed.

Lemma gray_table : all_upto 256 0%uint63 gray_check = true.
Proof. vm_compute. reflexivity. Qed.

Lemma gray_brightness (v : Z) :
  0 <= v <= 255 ->
  PrimFloat.div (float_of_int v) (float_of_int 255)
  = PrimFloat.div (float_of_int (v + v + v)) (float_of_int 765).
Proof.
  intros Hv.
  assert (Ev : Uint63.to_Z (Uint63.of_Z v) = v).
  { rewrite of_Z_spec. apply Z.mod_small.
    change wB with 9223372036854775808. lia. }
  pose proof (all_upto_spec _ _ _ gray_table) as H. rewrite to_Z_0 in H.
  specialize (H ltac:(discriminate) (Uint63.of_Z v)).
  rewrite Ev in H. specialize (H ltac:(simpl; lia)).
  apply FloatAxioms.Leibniz.eqb_spec in H.
  rewrite <- Ev at 1 2 3 4.
  change 255 with (Uint63.to_Z 255%uint63) at 1.
  change 765 with (Uint63.to_Z 765%uint63).
  replace (Uint63.to_Z (Uint63.of_Z v) + Uint63.to_Z (Uint63.of_Z v)
           + Uint63.to_Z (Uint63.of_Z v))
    with (Uint63.to_Z (Uint63.of_Z v + Uint63.of_Z v + Uint63.of_Z v)%uint63).
  - now rewrite !float_of_int_to_Z.
  - rewrite !Uint63.add_spec, !Ev. rewrite (Z.mod_small (v + v)).
    + apply Z.mod_small. change wB with 9223372036854775808. lia.
    + change wB with 9223372036854775808. lia.
Qed.

(** ** [transform_color] *)

Lemma true_div_765 (s : Z) :
  true_div s (255 * 3) = Ok (PrimFloat.div (float_of_int s) (float_of_int 765)).
Proof. reflexivity. Qed.

Lemma true_div_255 (v : Z) :
  true_div v 255 = Ok (PrimFloat.div (float_of_int v) (float_of_int 255)).
Proof. reflexivity. Qed.

Lemma white_test_false (r g b : Z) :
  ~ (r = 255 /\ g = 255 /\ b = 255) ->
  (r =? 255) && (g =? 255) && (b =? 255) = false.
Proof.
  intros Hw. apply not_true_is_false. intros H.
  apply andb_true_iff in H as [H Hb]. apply andb_true_iff in H as [Hr Hg].
  apply Z.eqb_eq in Hr, Hg, Hb. auto.
Qed.

(** Unfold the straight-line part of a [transform_color] body. *)
Ltac tc_unfold :=
  unfold StreamlitApp.transform_color, BitmapConverter.transform_color;
  cbn [length unpack3 take mbind res_bind bind subscript lookup list_lookup];
  change (Z.of_nat 3 =? 4) with false;
  change (Z.of_nat 4 =? 4) with true;
  change (3 <? Z.of_nat 3) with false;
  change (3 <? Z.of_nat 4) with true;
  rewrite ?true_div_765, ?true_div_255;
  cbn [mbind res_bind bind subscript lookup list_lookup].

(** Feed one computed channel into the body. *)
Ltac tc_chan E :=
  rewrite E; cbn [mbind res_bind bind subscript lookup list_lookup].

(** The three scaled channels of a pixel with channel sum [s]. *)
Lemma rgb_channels (t0 t1 t2 s : Z) :
  channel t0 -> channel t1 -> channel t2 -> 0 <= s <= 765 ->
  exists c0 c1 c2,
    let brightness := PrimFloat.div (float_of_int s) (float_of_int 765) in
    int_mul_if t0 brightness = Ok c0 /\
    int_mul_if t1 brightness = Ok c1 /\
    int_mul_if t2 brightness = Ok c2 /\
    near_floor 765 (t0 * s) c0 /\
    near_floor 765 (t1 * s) c1 /\
    near_floor 765 (t2 * s) c2.
Proof.
  unfold channel. intros H0 H1 H2 Hs.
  destruct (rgb_channel t0 s) as (c0 & E0 & N0); [lia|lia|].
  destruct (rgb_channel t1 s) as (c1 & E1 & N1); [lia|lia|].
  destruct (rgb_channel t2 s) as (c2 & E2 & N2); [lia|lia|].
  exists c0, c1, c2. cbv zeta. auto 10.
Qed.

Lemma scale_all_rgb (x : float) (t0 t1 t2 : Z) :
  scale_all x [t0; t1; t2]
  = (new_r ← int_mul_if t0 x;
     new_g ← int_mul_if t1 x;
     new_b ← int_mul_if t2 x;
     Ok [new_r; new_g; new_b]).
Proof.
  cbn [scale_all]. rewrite !int_mul_fi_if.
  cbn [mbind res_bind bind].
  destruct (int_mul_if t0 x); [|reflexivity].
  destruct (int_mul_if t1 x); [|reflexivity].
  destruct (int_mul_if t2 x); reflexivity.
Qed.

(** A grayscale value and the gray RGB pixel of the same value are mapped
    alike, whatever the three target channels are. *)
Lemma gray_as_rgb (v t0 t1 t2 : Z) :
  0 <= v <= 255 ->
  BitmapConverter.transform_color (PInt v) [t0; t1; t2]
  = BitmapConverter.transform_color (PTuple [v; v; v]) [t0; t1; t2]
  /\ (v <> 255 ->
      StreamlitApp.transform_color (PInt v) [t0; t1; t2]
      = StreamlitApp.transform_color (PTuple [v; v; v]) [t0; t1; t2]).
Proof.
  intros Hv. split; [|intros Hne].
  - tc_unfold. rewrite scale_all_rgb, (gray_brightness v Hv).
    cbn [mbind res_bind bind].
    destruct (int_mul_if t0 _); [|reflexivity].
    destruct (int_mul_if t1 _); [|reflexivity].
    destruct (int_mul_if t2 _); reflexivity.
  - tc_unfold.
    rewrite white_test_false by (intros (? & _); contradiction).
    rewrite (proj2 (Z.eqb_neq v 255) Hne).
    rewrite ?true_div_765, ?true_div_255.
    cbn [mbind res_bind bind subscript lookup list_lookup].
    rewrite scale_all_rgb, (gray_brightness v Hv).
    cbn [mbind res_bind bind].
    destruct (int_mul_if t0 _); [|reflexivity].
    destruct (int_mul_if t1 _); [|reflexivity].
    destruct (int_mul_if t2 _); reflexivity.
Qed.

(** ** Properties of [transform_color] *)

(** C1, as the code has it.  For a pixel that is not pure white and a
    target colour, both variants of [transform_color] return the target
    channels scaled by the brightness and truncated, not rounded: channel
    [c] of the result is the floor of [t * (r + g + b) / 765], or one less
    than that when the quotient is an exact integer; the alpha band of an
    RGBA pixel does not enter the computation. *)
Theorem transform_color_scales_and_truncates (r g b a t0 t1 t2 : Z) :
  channel r -> channel g -> channel b ->
  channel t0 -> channel t1 -> channel t2 ->
  ~ (r = 255 /\ g = 255 /\ b = 255) ->
  exists c0 c1 c2,
    near_floor 765 (t0 * (r + g + b)) c0 /\
    near_floor 765 (t1 * (r + g + b)) c1 /\
    near_floor 765 (t2 * (r + g + b)) c2 /\
    StreamlitApp.transform_color (PTuple [r; g; b]) [t0; t1; t2]
      = Ok (PTuple [c0; c1; c2]) /\
    StreamlitApp.transform_color (PTuple [r; g; b; a]) [t0; t1; t2]
      = Ok (PTuple [c0; c1; c2; a]) /\
    BitmapConverter.transform_color (PTuple [r; g; b]) [t0; t1; t2]
      = Ok (PTuple [c0; c1; c2]) /\
    BitmapConverter.transform_color (PTuple [r; g; b; a]) [t0; t1; t2]
      = Ok (PTuple [c0; c1; c2; a]).
Proof.
  intros Hr Hg Hb H0 H1 H2 Hw.
  destruct (rgb_channels t0 t1 t2 (r + g + b) H0 H1 H2)
    as (c0 & c1 & c2 & E0 & E1 & E2 & N0 & N1 & N2);
    [unfold channel in *; lia|].
  cbv zeta in E0, E1, E2.
  exists c0, c1, c2. repeat split; try assumption.
  - tc_unfold. rewrite (white_test_false r g b Hw).
    rewrite ?true_div_765. cbn [mbind res_bind bind subscript lookup list_lookup].
    tc_chan E0. tc_chan E1. tc_chan E2. reflexivity.
  - tc_unfold. rewrite (white_test_false r g b Hw).
    rewrite ?true_div_765. cbn [mbind res_bind bind subscript lookup list_lookup].
    tc_chan E0. tc_chan E1. tc_chan E2. reflexivity.
  - tc_unfold. tc_chan E0. tc_chan E1. tc_chan E2. reflexivity.
  - tc_unfold. tc_chan E0. tc_chan E1. tc_chan E2. reflexivity.
Qed.

Lemma transform_color_scales_and_truncates_witness :
  exists c0 c1 c2,
    near_floor 765 (0 * (200 + 100 + 50)) c0 /\
    near_floor 765 (255 * (200 + 100 + 50)) c1 /\
    near_floor 765 (0 * (200 + 100 + 50)) c2 /\
    StreamlitApp.transform_color (PTuple [200; 100; 50]) [0; 255; 0]
      = Ok (PTuple [c0; c1; c2]) /\
    StreamlitApp.transform_color (PTuple [200; 100; 50; 128]) [0; 255; 0]
      = Ok (PTuple [c0; c1; c2; 128]) /\
    BitmapConverter.transform_color (PTuple [200; 100; 50]) [0; 255; 0]
      = Ok (PTuple [c0; c1; c2]) /\
    BitmapConverter.transform_color (PTuple [200; 100; 50; 128]) [0; 255; 0]
      = Ok (PTuple [c0; c1; c2; 128]).
Proof.
  apply (transform_color_scales_and_truncates 200 100 50 128 0 255 0);
    unfold channel; lia.
Defined.

(** C1, as the specification states it, fails on its own example: pixel
    (200, 100, 50) with target (0, 255, 0) gives (0, 116, 0) in both
    variants, where rounding [255 * 350 / 765 = 116.67] gives 117. *)
Lemma transform_color_example_is_116 :
  StreamlitApp.transform_color (PTuple [200; 100; 50]) [0; 255; 0]
    = Ok (PTuple [0; 116; 0]) /\
  BitmapConverter.transform_color (PTuple [200; 100; 50]) [0; 255; 0]
    = Ok (PTuple [0; 116; 0]) /\
  spec_round_channel 255 (200 + 100 + 50) = 117 /\
  StreamlitApp.transform_color (PTuple [200; 100; 50]) [0; 255; 0]
    <> Ok (PTuple [spec_round_channel 0 (200 + 100 + 50);
                   spec_round_channel 255 (200 + 100 + 50);
                   spec_round_channel 0 (200 + 100 + 50)]).
Proof.
  assert (E : StreamlitApp.transform_color (PTuple [200; 100; 50]) [0; 255; 0]
              = Ok (PTuple [0; 116; 0])) by (vm_compute; reflexivity).
  split; [exact E|]. split; [vm_compute; reflexivity|].
  split; [reflexivity|]. rewrite E. vm_compute. discriminate.
Qed.

(** The truncated product can fall one below the exact quotient: with
    target channel 45 and channel sum 221 the exact value is 13. *)
Example truncation_below_exact_quotient :
  StreamlitApp.transform_color (PTuple [100; 100; 21]) [45; 45; 45]
    = Ok (PTuple [12; 12; 12])
  /\ 45 * (100 + 100 + 21) = 765 * 13.
Proof. split; [vm_compute; reflexivity | reflexivity]. Qed.

(** C2, as the code has it.  The batch variant maps a pure-white pixel to
    itself for every target colour: a grayscale 255, an RGB white, and an
    RGBA white with its alpha band unchanged. *)
Theorem white_is_preserved_in_batch_variant (target_color : list Z) (a : Z) :
  StreamlitApp.transform_color (PInt 255) target_color = Ok (PInt 255) /\
  StreamlitApp.transform_color (PTuple [255; 255; 255]) target_color
    = Ok (PTuple [255; 255; 255]) /\
  StreamlitApp.transform_color (PTuple [255; 255; 255; a]) target_color
    = Ok (PTuple [255; 255; 255; a]).
Proof. repeat split; reflexivity. Qed.

(** C2 fails for the single-image variant, which has no white exception:
    it maps RGB white to the target colour. *)
Lemma white_is_recoloured_in_single_variant :
  BitmapConverter.transform_color (PTuple [255; 255; 255]) [255; 0; 0]
    = Ok (PTuple [255; 0; 0]) /\
  BitmapConverter.transform_color (PTuple [255; 255; 255]) [255; 0; 0]
    <> Ok (PTuple [255; 255; 255]).
Proof.
  assert (E : BitmapConverter.transform_color (PTuple [255; 255; 255]) [255; 0; 0]
              = Ok (PTuple [255; 0; 0])) by (vm_compute; reflexivity).
  split; [exact E | rewrite E; discriminate].
Qed.

(** C3.  For every target colour and every grayscale value [v] other than
    255, the grayscale pixel [v] and the RGB pixel [(v, v, v)] are mapped to
    the same RGB triple, in both variants. *)
Theorem grayscale_equivalence (v t0 t1 t2 : Z) :
  0 <= v <= 255 -> v <> 255 ->
  channel t0 -> channel t1 -> channel t2 ->
  exists c0 c1 c2,
    StreamlitApp.transform_color (PInt v) [t0; t1; t2]
      = Ok (PTuple [c0; c1; c2]) /\
    StreamlitApp.transform_color (PTuple [v; v; v]) [t0; t1; t2]
      = Ok (PTuple [c0; c1; c2]) /\
    BitmapConverter.transform_color (PInt v) [t0; t1; t2]
      = Ok (PTuple [c0; c1; c2]) /\
    BitmapConverter.transform_color (PTuple [v; v; v]) [t0; t1; t2]
      = Ok (PTuple [c0; c1; c2]).
Proof.
  intros Hv Hne H0 H1 H2.
  destruct (rgb_channels t0 t1 t2 (v + v + v) H0 H1 H2)
    as (c0 & c1 & c2 & E0 & E1 & E2 & _); [lia|].
  cbv zeta in E0, E1, E2.
  destruct (gray_as_rgb v t0 t1 t2 Hv) as [GB GS].
  exists c0, c1, c2. rewrite GB, (GS Hne).
  assert (ES : StreamlitApp.transform_color (PTuple [v; v; v]) [t0; t1; t2]
               = Ok (PTuple [c0; c1; c2])).
  { tc_unfold. rewrite white_test_false by (intros (? & _); contradiction).
    rewrite ?true_div_765.
    cbn [mbind res_bind bind subscript lookup list_lookup].
    tc_chan E0. tc_chan E1. tc_chan E2. reflexivity. }
  assert (EB : BitmapConverter.transform_color (PTuple [v; v; v]) [t0; t1; t2]
               = Ok (PTuple [c0; c1; c2])).
  { tc_unfold. tc_chan E0. tc_chan E1. tc_chan E2. reflexivity. }
  auto.
Qed.

Lemma grayscale_equivalence_witness :
  exists c0 c1 c2,
    StreamlitApp.transform_color (PInt 128) [255; 0; 64]
      = Ok (PTuple [c0; c1; c2]) /\
    StreamlitApp.transform_color (PTuple [128; 128; 128]) [255; 0; 64]
      = Ok (PTuple [c0; c1; c2]) /\
    BitmapConverter.transform_color (PInt 128) [255; 0; 64]
      = Ok (PTuple [c0; c1; c2]) /\
    BitmapConverter.transform_color (PTuple [128; 128; 128]) [255; 0; 64]
      = Ok (PTuple [c0; c1; c2]).
Proof.
  apply (grayscale_equivalence 128 255 0 64); unfold channel; lia.
Defined.

(** C4.  For every RGBA pixel and every target colour, both variants return
    a pixel whose alpha band is the alpha band of the input. *)
Theorem alpha_pass_through (r g b a t0 t1 t2 : Z) :
  channel r -> channel g -> channel b ->
  channel t0 -> channel t1 -> channel t2 ->
  (exists out,
     StreamlitApp.transform_color (PTuple [r; g; b; a]) [t0; t1; t2] = Ok out
     /\ alpha_of out = Some a) /\
  (exists out,
     BitmapConverter.transform_color (PTuple [r; g; b; a]) [t0; t1; t2] = Ok out
     /\ alpha_of out = Some a).
Proof.
  intros Hr Hg Hb H0 H1 H2.
  destruct (rgb_channels t0 t1 t2 (r + g + b) H0 H1 H2)
    as (c0 & c1 & c2 & E0 & E1 & E2 & _);
    [unfold channel in *; lia|].
  cbv zeta in E0, E1, E2.
  split.
  - destruct ((r =? 255) && (g =? 255) && (b =? 255)) eqn:Hw.
    + exists (PTuple [255; 255; 255; a]). split; [|reflexivity].
      tc_unfold. now rewrite Hw.
    + exists (PTuple [c0; c1; c2; a]). split; [|reflexivity].
      tc_unfold. rewrite Hw.
      rewrite ?true_div_765.
      cbn [mbind res_bind bind subscript lookup list_lookup].
      tc_chan E0. tc_chan E1. tc_chan E2. reflexivity.
  - exists (PTuple [c0; c1; c2; a]). split; [|reflexivity].
    tc_unfold. tc_chan E0. tc_chan E1. tc_chan E2. reflexivity.
Qed.

Lemma alpha_pass_through_witness :
  (exists out,
     StreamlitApp.transform_color (PTuple [255; 255; 255; 128]) [10; 20; 30]
       = Ok out
     /\ alpha_of out = Some 128) /\
  (exists out,
     BitmapConverter.transform_color (PTuple [255; 255; 255; 128]) [10; 20; 30]
       = Ok out
     /\ alpha_of out = Some 128).
Proof.
  apply (alpha_pass_through 255 255 255 128 10 20 30); unfold channel; lia.
Defined.

(** C10.  On every RGB or RGBA pixel that is not pure white, and for every
    target colour, the two variants of [transform_color] agree: they return
    the same pixel, or raise the same exception when the target colour has
    fewer than three channels. *)
Theorem variants_agree_off_white (r g b a : Z) (target_color : list Z) :
  ~ (r = 255 /\ g = 255 /\ b = 255) ->
  BitmapConverter.transform_color (PTuple [r; g; b]) target_color
    = StreamlitApp.transform_color (PTuple [r; g; b]) target_color
  /\ BitmapConverter.transform_color (PTuple [r; g; b; a]) target_color
    = StreamlitApp.transform_color (PTuple [r; g; b; a]) target_color.
Proof.
  intros Hw. split; tc_unfold; rewrite (white_test_false r g b Hw);
    rewrite ?true_div_765;
    reflexivity.
Qed.

Lemma variants_agree_off_white_witness :
  BitmapConverter.transform_color (PTuple [200; 100; 50]) [0; 255; 0]
    = StreamlitApp.transform_color (PTuple [200; 100; 50]) [0; 255; 0]
  /\ BitmapConverter.transform_color (PTuple [200; 100; 50; 7]) [0; 255; 0]
    = StreamlitApp.transform_color (PTuple [200; 100; 50; 7]) [0; 255; 0].
Proof.
  apply (variants_agree_off_white 200 100 50 7 [0; 255; 0]). lia.
Defined.

(** ** [process_image] *)

Import StreamlitApp.

Lemma for_each_ok_inv {S : Type} (xs : list nat) (body : nat -> S -> res S)
    (s s' : S) (x : nat) :
  for_each xs body s = Ok s' -> x ∈ xs -> exists s0 s1, body x s0 = Ok s1.
Proof.
  revert s. induction xs as [|x0 xs IH]; intros s Hrun Hin.
  - inversion Hin.
  - cbn [for_each mbind res_bind bind] in Hrun.
    destruct (body x0 s) as [s1|e] eqn:Hb; [|discriminate].
    apply elem_of_cons in Hin as [->|Hin]; [eauto | eapply IH; eauto].
Qed.

Lemma pixel_step_raise (img new_img : image) (target_color : list Z)
    (x y : nat) (e : exn) :
  recolour_at img target_color x y = Raise e ->
  pixel_step img target_color y x new_img = Raise e.
Proof.
  unfold recolour_at, pixel_step.
  destruct (getpixel img x y) as [p|e']; cbn [mbind res_bind bind].
  - destruct (transform_color p target_color);
      [discriminate | intros [= <-]; reflexivity].
  - intros [= <-]; reflexivity.
Qed.

Lemma row_loop_ok_inv (img : image) (target_color : list Z)
    (cb : option callback) (total : nat) (ys : list nat) (y : nat) :
  forall (new_img : image) (trace : list float) (out : image),
  snd (row_loop img target_color cb total ys new_img trace) = Ok out ->
  y ∈ ys ->
  exists new0 new1,
    for_each (seq 0 (width img)) (pixel_step img target_color y) new0 = Ok new1.
Proof.
  induction ys as [|y0 ys IH]; intros new_img trace out Hrun Hin.
  - inversion Hin.
  - cbn [row_loop] in Hrun.
    destruct (for_each _ (pixel_step img target_color y0) new_img)
      as [new1|e] eqn:Hrow; [|discriminate].
    apply elem_of_cons in Hin as [->|Hin]; [eauto|].
    destruct cb as [f|]; [|eapply IH; eauto].
    destruct (y0 mod 10 =? 0)%nat; [|eapply IH; eauto].
    destruct (progress_value y0 (width img) total) as [p|e]; [|discriminate].
    destruct (f p); [eapply IH; eauto | discriminate].
Qed.

(** An exception in the recolouring of one pixel makes the whole loop end
    with an exception. *)
Lemma row_loop_raises (img : image) (target_color : list Z)
    (cb : option callback) (total : nat) (new_img : image) (trace : list float)
    (x y : nat) (e : exn) :
  (x < width img)%nat -> (y < height img)%nat ->
  recolour_at img target_color x y = Raise e ->
  is_ok (snd (row_loop img target_color cb total (seq 0 (height img))
                new_img trace)) = false.
Proof.
  intros Hx Hy Hbad.
  destruct (snd (row_loop _ _ _ _ _ _ _)) as [out|e'] eqn:Hrun; [|reflexivity].
  exfalso.
  destruct (row_loop_ok_inv _ _ _ _ _ y _ _ _ Hrun) as (n0 & n1 & Hrow).
  { apply elem_of_seq. lia. }
  destruct (for_each_ok_inv _ _ _ _ x Hrow) as (s0 & s1 & Hstep).
  { apply elem_of_seq. lia. }
  rewrite (pixel_step_raise _ _ _ _ _ _ Hbad) in Hstep. discriminate.
Qed.

Lemma process_image_snd (convert : image -> string -> image) (img : image)
    (target_color : list Z) (cb : option callback) :
  snd (process_image convert img target_color cb)
  = match snd (row_loop (normalise convert img) target_color cb
                 (width (normalise convert img) * height (normalise convert img))
                 (seq 0 (height (normalise convert img)))
                 (Image_new (mode (normalise convert img))
                    (width (normalise convert img))
                    (height (normalise convert img))) [])
    with Ok new_img => Some new_img | Raise _ => None end.
Proof. unfold process_image. cbv zeta. now destruct (row_loop _ _ _ _ _ _ _). Qed.

Lemma process_image_fst (convert : image -> string -> image) (img : image)
    (target_color : list Z) (cb : option callback) :
  fst (process_image convert img target_color cb)
  = fst (row_loop (normalise convert img) target_color cb
           (width (normalise convert img) * height (normalise convert img))
           (seq 0 (height (normalise convert img)))
           (Image_new (mode (normalise convert img))
              (width (normalise convert img))
              (height (normalise convert img))) []).
Proof. unfold process_image. cbv zeta. now destruct (row_loop _ _ _ _ _ _ _). Qed.

Lemma process_image_raises (convert : image -> string -> image) (img : image)
    (target_color : list Z) (cb : option callback) (x y : nat) (e : exn) :
  (x < width (normalise convert img))%nat ->
  (y < height (normalise convert img))%nat ->
  recolour_at (normalise convert img) target_color x y = Raise e ->
  snd (process_image convert img target_color cb) = None.
Proof.
  intros Hx Hy Hbad. rewrite process_image_snd.
  pose proof (row_loop_raises _ target_color cb
                (width (normalise convert img) * height (normalise convert img))
                (Image_new (mode (normalise convert img))
                   (width (normalise convert img))
                   (height (normalise convert img))) [] x y e Hx Hy Hbad) as H.
  destruct (snd (row_loop _ _ _ _ _ _ _)); [discriminate | reflexivity].
Qed.

(** ** True division of [int]s: rounding, order, bounds *)

Lemma rne_exact (k d : Z) : 0 < d -> rne (k * d) d = k.
Proof.
  intros Hd. unfold rne. rewrite Z.div_mul, Z.mod_mul by lia.
  destruct d as [|p|p]; [lia | reflexivity | lia].
Qed.

Lemma rne_floor_ceil (n d : Z) :
  0 < d -> n / d <= rne n d <= n / d + 1 /\ (n mod d = 0 -> rne n d = n / d).
Proof.
  intros Hd. unfold rne. split.
  - destruct (2 * (n mod d) ?= d); [destruct (Z.even (n / d))| |]; lia.
  - intros ->. destruct d as [|p|p]; [lia | reflexivity | lia].
Qed.

Lemma rne_mono (n n' d : Z) : 0 < d -> n <= n' -> rne n d <= rne n' d.
Proof.
  intros Hd Hle.
  pose proof (Z.div_le_mono n n' d Hd Hle) as Hq.
  destruct (rne_floor_ceil n d Hd) as [[_ Hu] _].
  destruct (rne_floor_ceil n' d Hd) as [[Hl' _] _].
  destruct (Z.eq_dec (n / d) (n' / d)) as [E|NE]; [|lia].
  assert (Hr : n mod d <= n' mod d).
  { rewrite !Z.mod_eq by lia. rewrite E. lia. }
  unfold rne. rewrite <- E.
  destruct (2 * (n mod d) ?= d) eqn:C1; destruct (2 * (n' mod d) ?= d) eqn:C2;
    try (apply Z.compare_eq in C1); try (apply Z.compare_eq in C2);
    rewrite ?Z.compare_lt_iff, ?Z.compare_gt_iff in *;
    destruct (Z.even (n / d)); lia.
Qed.

Lemma rne_ge (n d k : Z) : 0 < d -> k * d <= n -> k <= rne n d.
Proof.
  intros Hd H. rewrite <- (rne_exact k d Hd). now apply rne_mono.
Qed.

Lemma rne_le (n d k : Z) : 0 < d -> n <= k * d -> rne n d <= k.
Proof.
  intros Hd H. rewrite <- (rne_exact k d Hd). now apply rne_mono.
Qed.

Lemma shift_nonneg (a b : Z) : 0 <= quotient_shift a b.
Proof. unfold quotient_shift. lia. Qed.

Lemma den_pos (a b : Z) : 0 < b -> 0 < b * 2 ^ quotient_shift a b.
Proof.
  intros Hb. pose proof (shift_nonneg a b).
  apply Z.mul_pos_pos; [lia|]. apply Z.pow_pos_nonneg; lia.
Qed.

Lemma scaled_div_bounds (n b : Z) :
  0 <= n -> 0 < b -> (n / b) * b <= n < (n / b + 1) * b.
Proof.
  intros Hn Hb. pose proof (Z.mod_pos_bound n b Hb).
  pose proof (Z.div_mod n b ltac:(lia)). nia.
Qed.

Lemma num_upper (a b : Z) :
  0 <= a -> 0 < b -> a * 2 ^ 1074 < b * 2 ^ (quotient_shift a b + 53).
Proof.
  intros Ha Hb. pose proof (shift_nonneg a b) as HE.
  set (n := a * 2 ^ 1074).
  assert (Hn : 0 <= n)
    by (unfold n; apply Z.mul_nonneg_nonneg; [lia|apply Z.pow_nonneg; lia]).
  set (q := n / b).
  assert (Hq : 0 <= q) by (apply Z.div_pos; lia).
  assert (Hq2 : q < 2 ^ (quotient_shift a b + 53)).
  { destruct (Z.eq_dec q 0) as [->|Hne].
    - apply Z.pow_pos_nonneg; lia.
    - pose proof (Z.log2_spec q ltac:(lia)) as [_ Hu].
      eapply Z.lt_le_trans; [exact Hu|].
      apply Z.pow_le_mono_r; [lia|].
      unfold quotient_shift. fold n. fold q. lia. }
  pose proof (scaled_div_bounds n b Hn Hb) as [_ Hnq]. fold q in Hnq. nia.
Qed.

Lemma num_lower (a b : Z) :
  0 <= a -> 0 < b -> 0 < quotient_shift a b ->
  b * 2 ^ (quotient_shift a b + 52) <= a * 2 ^ 1074.
Proof.
  intros Ha Hb HE. set (n := a * 2 ^ 1074).
  assert (Hn : 0 <= n)
    by (unfold n; apply Z.mul_nonneg_nonneg; [lia|apply Z.pow_nonneg; lia]).
  set (q := n / b).
  assert (HEq : quotient_shift a b = Z.log2 q - 52).
  { unfold quotient_shift in *. fold n. fold q. fold n in HE. fold q in HE. lia. }
  assert (Hqpos : 0 < q).
  { destruct (Z_lt_le_dec 0 q) as [H|H]; [exact H|].
    rewrite (Z.log2_nonpos q H) in HEq. lia. }
  pose proof (Z.log2_spec q Hqpos) as [Hl _].
  replace (quotient_shift a b + 52) with (Z.log2 q) by lia.
  pose proof (scaled_div_bounds n b Hn Hb) as [Hnq _]. fold q in Hnq. nia.
Qed.

Lemma mantissa_bounds (a b : Z) :
  0 <= a -> 0 < b ->
  let m := rne (a * 2 ^ 1074) (b * 2 ^ quotient_shift a b) in
  0 <= m <= 2 ^ 53 /\ (0 < quotient_shift a b -> 2 ^ 52 <= m).
Proof.
  intros Ha Hb. cbv zeta.
  pose proof (shift_nonneg a b) as HE. pose proof (den_pos a b Hb) as Hd.
  assert (Hn : 0 <= a * 2 ^ 1074)
    by (apply Z.mul_nonneg_nonneg; [lia|apply Z.pow_nonneg; lia]).
  split; [split|].
  - apply rne_ge; [exact Hd | lia].
  - apply rne_le; [exact Hd|].
    pose proof (num_upper a b Ha Hb) as Hu. rewrite Z.pow_add_r in Hu by lia. lia.
  - intros HE'. apply rne_ge; [exact Hd|].
    pose proof (num_lower a b Ha Hb HE') as Hl.
    rewrite Z.pow_add_r in Hl by lia. lia.
Qed.

Lemma round_ratio_sval (a b : Z) :
  0 <= a -> 0 < b ->
  sval (round_ratio a b)
  = rne (a * 2 ^ 1074) (b * 2 ^ quotient_shift a b) * 2 ^ quotient_shift a b.
Proof.
  intros Ha Hb. pose proof (shift_nonneg a b) as HE.
  destruct (mantissa_bounds a b Ha Hb) as [[Hm0 Hm1] _].
  unfold round_ratio. cbv zeta.
  set (E := quotient_shift a b) in *.
  set (m := rne (a * 2 ^ 1074) (b * 2 ^ E)) in *.
  destruct (m =? 0) eqn:H0; [apply Z.eqb_eq in H0; rewrite H0; reflexivity|].
  apply Z.eqb_neq in H0.
  destruct (m =? 2 ^ 53) eqn:H53.
  - apply Z.eqb_eq in H53. rewrite H53. unfold sval.
    replace (E + 1 - 1074 + 1074) with (E + 1) by lia.
    rewrite Z.pow_add_r by lia.
    change (Z.pos (Z.to_pos (2 ^ 52))) with (2 ^ 52). lia.
  - unfold sval. rewrite Z2Pos.id by lia.
    replace (E - 1074 + 1074) with E by lia. reflexivity.
Qed.

Lemma round_ratio_canon (a b : Z) :
  0 <= a -> 0 < b -> nncanon (round_ratio a b).
Proof.
  intros Ha Hb. pose proof (shift_nonneg a b) as HE.
  destruct (mantissa_bounds a b Ha Hb) as [[Hm0 Hm1] Hm2].
  unfold round_ratio. cbv zeta.
  set (E := quotient_shift a b) in *.
  set (m := rne (a * 2 ^ 1074) (b * 2 ^ E)) in *.
  destruct (m =? 0) eqn:H0; [exact I|]. apply Z.eqb_neq in H0.
  destruct (m =? 2 ^ 53) eqn:H53.
  - unfold nncanon. split; [lia|]. split; [reflexivity|]. intros _. reflexivity.
  - apply Z.eqb_neq in H53. unfold nncanon. rewrite Z2Pos.id by lia.
    split; [lia|]. split; [lia|]. intros He. apply Hm2. lia.
Qed.

Lemma quotient_shift_mono (a a' b : Z) :
  0 <= a <= a' -> 0 < b -> quotient_shift a b <= quotient_shift a' b.
Proof.
  intros Ha Hb. unfold quotient_shift.
  assert (a * 2 ^ 1074 / b <= a' * 2 ^ 1074 / b).
  { apply Z.div_le_mono; [lia|]. apply Z.mul_le_mono_nonneg_r; [|lia].
    apply Z.pow_nonneg; lia. }
  pose proof (Z.log2_le_mono _ _ H). lia.
Qed.

Lemma round_ratio_mono (a a' b : Z) :
  0 <= a <= a' -> 0 < b ->
  sval (round_ratio a b) <= sval (round_ratio a' b).
Proof.
  intros Ha Hb. rewrite !round_ratio_sval by lia.
  pose proof (quotient_shift_mono a a' b Ha Hb) as HE.
  pose proof (shift_nonneg a b) as HE0.
  destruct (mantissa_bounds a b ltac:(lia) Hb) as [[Hm0 Hm1] _].
  destruct (mantissa_bounds a' b ltac:(lia) Hb) as [[Hm0' Hm1'] Hm2'].
  cbv zeta in *.
  destruct (Z.eq_dec (quotient_shift a b) (quotient_shift a' b)) as [Eq|Ne].
  - rewrite <- Eq. apply Z.mul_le_mono_nonneg_r; [apply Z.pow_nonneg; lia|].
    apply rne_mono; [apply den_pos; lia|].
    apply Z.mul_le_mono_nonneg_r; [apply Z.pow_nonneg; lia | lia].
  - assert (Hlt : quotient_shift a b < quotient_shift a' b) by lia.
    specialize (Hm2' ltac:(lia)).
    set (E := quotient_shift a b) in *. set (E' := quotient_shift a' b) in *.
    assert (H1 : rne (a * 2 ^ 1074) (b * 2 ^ E) * 2 ^ E <= 2 ^ 53 * 2 ^ E).
    { apply Z.mul_le_mono_nonneg_r; [apply Z.pow_nonneg; lia | exact Hm1]. }
    assert (H2 : 2 ^ 52 * 2 ^ E' <= rne (a' * 2 ^ 1074) (b * 2 ^ E') * 2 ^ E').
    { apply Z.mul_le_mono_nonneg_r; [apply Z.pow_nonneg; lia | exact Hm2']. }
    assert (H3 : 2 ^ 53 * 2 ^ E <= 2 ^ 52 * 2 ^ E').
    { rewrite <- !Z.pow_add_r by lia. apply Z.pow_le_mono_r; lia. }
    lia.
Qed.

Lemma digits2_pos_spec (p : positive) :
  2 ^ (Z.pos (digits2_pos p) - 1) <= Z.pos p < 2 ^ Z.pos (digits2_pos p).
Proof.
  induction p as [p IH|p IH|]; cbn [digits2_pos].
  - rewrite Pos2Z.inj_succ.
    replace (Z.succ (Z.pos (digits2_pos p)) - 1) with (Z.pos (digits2_pos p) - 1 + 1)
      by lia.
    rewrite Z.pow_succ_r, Z.pow_add_r by lia. lia.
  - rewrite Pos2Z.inj_succ.
    replace (Z.succ (Z.pos (digits2_pos p)) - 1) with (Z.pos (digits2_pos p) - 1 + 1)
      by lia.
    rewrite Z.pow_succ_r, Z.pow_add_r by lia. lia.
  - cbn. lia.
Qed.

Lemma nncanon_valid (x : spec_float) :
  nncanon x ->
  match x with S754_finite _ _ e => e <= 971 | _ => True end ->
  valid_binary x = true.
Proof.
  destruct x as [s|s| |s m e]; try reflexivity.
  destruct s; [intros []|]. intros (He & Hm & Hn) Hmax.
  unfold valid_binary, bounded, canonical_mantissa, fexp, SpecFloat.emin.
  change FloatOps.prec with 53. change FloatOps.emax with 1024.
  apply andb_true_intro. split; [|apply Z.leb_le; lia].
  apply Z.eqb_eq.
  pose proof (digits2_pos_spec m) as [Hl Hu].
  set (d := Z.pos (digits2_pos m)) in *.
  assert (Hd : d <= 53).
  { destruct (Z_le_gt_dec d 53) as [H|H]; [exact H|].
    assert (2 ^ 53 <= 2 ^ (d - 1)) by (apply Z.pow_le_mono_r; lia). lia. }
  destruct (Z.eq_dec e (-1074)) as [->|Hne]; [lia|].
  assert (Hd' : 53 <= d).
  { specialize (Hn ltac:(lia)).
    destruct (Z_le_gt_dec 53 d) as [H|H]; [exact H|].
    assert (2 ^ d <= 2 ^ 52) by (apply Z.pow_le_mono_r; lia). lia. }
  lia.
Qed.

Lemma nncanon_leb (x y : spec_float) :
  nncanon x -> nncanon y -> sval x <= sval y -> SFleb x y = true.
Proof.
  intros Hx Hy Hv.
  destruct x as [sx|sx| |sx mx ex]; cbn [nncanon] in Hx; try contradiction;
    destruct sx; try contradiction;
    destruct y as [sy|sy| |sy my ey]; cbn [nncanon] in Hy; try contradiction;
    destruct sy; try contradiction.
  - reflexivity.
  - reflexivity.
  - exfalso. cbn [sval] in Hv. destruct Hx as (Hex & _).
    pose proof (Z.pow_pos_nonneg 2 (ex + 1074) ltac:(lia) ltac:(lia)). lia.
  - destruct Hx as (Hex & Hmx & Hnx). destruct Hy as (Hey & Hmy & Hny).
    unfold SFleb, SFcompare. cbn [sval] in Hv.
    destruct (ex ?= ey) eqn:C.
    + apply Z.compare_eq in C. subst ey.
      assert (Hp : 0 < 2 ^ (ex + 1074)) by (apply Z.pow_pos_nonneg; lia).
      assert (Hle : Z.pos mx <= Z.pos my) by nia.
      change (Pos.compare_cont Eq mx my) with (Pos.compare mx my).
      destruct (Pos.compare mx my) eqn:C'; try reflexivity.
      apply Pos.compare_gt_iff in C'. lia.
    + reflexivity.
    + apply Z.compare_gt_iff in C. exfalso.
      specialize (Hnx ltac:(lia)).
      assert (H1 : 2 ^ 52 * 2 ^ (ex + 1074) <= Z.pos mx * 2 ^ (ex + 1074)).
      { apply Z.mul_le_mono_nonneg_r; [apply Z.pow_nonneg; lia | exact Hnx]. }
      assert (H2 : Z.pos my * 2 ^ (ey + 1074) < 2 ^ 53 * 2 ^ (ey + 1074)).
      { apply Z.mul_lt_mono_pos_r; [apply Z.pow_pos_nonneg; lia | exact Hmy]. }
      assert (H3 : 2 ^ 53 * 2 ^ (ey + 1074) <= 2 ^ 52 * 2 ^ (ex + 1074)).
      { rewrite <- !Z.pow_add_r by lia. apply Z.pow_le_mono_r; lia. }
      lia.
Qed.

(** The float of a canonical value, compared. *)
Lemma SF2Prim_leb (x y : spec_float) :
  valid_binary x = true -> valid_binary y = true ->
  SFleb x y = true -> PrimFloat.leb (SF2Prim x) (SF2Prim y) = true.
Proof.
  intros Hx Hy H. rewrite FloatAxioms.leb_spec, !Prim2SF_SF2Prim by assumption. exact H.
Qed.

Lemma int_true_div_ok (a b : nat) :
  b <> 0%nat -> exponent_ok (round_ratio (Z.of_nat a) (Z.of_nat b)) ->
  int_true_div a b = Ok (SF2Prim (round_ratio (Z.of_nat a) (Z.of_nat b))).
Proof.
  intros Hb Hok. unfold int_true_div.
  destruct (b =? 0)%nat eqn:E; [apply Nat.eqb_eq in E; contradiction|].
  destruct (round_ratio _ _) as [s|s| |s m e]; try reflexivity.
  cbn [exponent_ok] in Hok. destruct (971 <? e) eqn:C; [apply Z.ltb_lt in C; lia | reflexivity].
Qed.

Lemma sval_small_exponent (x : spec_float) (k : Z) :
  nncanon x -> sval x <= k * 2 ^ 1074 -> k < 2 ^ 1024 -> exponent_ok x.
Proof.
  destruct x as [s|s| |s m e]; try (intros; exact I).
  destruct s; [intros []|]. intros (He & Hm & Hn) Hv Hk. cbn [sval exponent_ok] in *.
  destruct (Z_le_gt_dec e 971) as [H|H]; [exact H|]. exfalso.
  specialize (Hn ltac:(lia)).
  assert (H1 : 2 ^ 52 * 2 ^ (e + 1074) <= Z.pos m * 2 ^ (e + 1074)).
  { apply Z.mul_le_mono_nonneg_r; [apply Z.pow_nonneg; lia | exact Hn]. }
  assert (H2 : 2 ^ 1024 * 2 ^ 1074 <= 2 ^ 52 * 2 ^ (e + 1074)).
  { rewrite <- !Z.pow_add_r by lia. apply Z.pow_le_mono_r; lia. }
  assert (H3 : k * 2 ^ 1074 < 2 ^ 1024 * 2 ^ 1074).
  { apply Z.mul_lt_mono_pos_r; [apply Z.pow_pos_nonneg; lia | exact Hk]. }
  lia.
Qed.

Lemma round_ratio_100 (b : Z) :
  0 < b -> sval (round_ratio (100 * b) b) = 100 * 2 ^ 1074.
Proof.
  intros Hb. rewrite round_ratio_sval by lia. unfold quotient_shift.
  replace (100 * b * 2 ^ 1074 / b) with (100 * 2 ^ 1074).
  2:{ replace (100 * b * 2 ^ 1074) with (100 * 2 ^ 1074 * b) by lia.
      now rewrite Z.div_mul by lia. }
  rewrite Z.log2_mul_pow2 by lia. change (Z.log2 100) with 6.
  change (Z.max (1074 + 6 - 52) 0) with 1028.
  replace (100 * b * 2 ^ 1074) with (100 * 2 ^ 46 * (b * 2 ^ 1028)).
  - rewrite rne_exact; [|apply Z.mul_pos_pos; lia].
    change 1074 with (46 + 1028). rewrite (Z.pow_add_r 2 46 1028) by lia. lia.
  - change 1074 with (46 + 1028). rewrite (Z.pow_add_r 2 46 1028) by lia. lia.
Qed.

Lemma round_ratio_0 (b : Z) : 0 < b -> round_ratio 0 b = S754_zero false.
Proof.
  intros Hb. unfold round_ratio. rewrite Z.mul_0_l.
  pose proof (shift_nonneg 0 b) as HE.
  rewrite <- (Z.mul_0_l (b * 2 ^ quotient_shift 0 b)) at 1.
  rewrite rne_exact; [reflexivity|].
  apply Z.mul_pos_pos; [lia | apply Z.pow_pos_nonneg; lia].
Qed.

(** ** The progress trace *)

Lemma Zpos_of_nat (n : nat) : n <> 0%nat -> Z.pos (Pos.of_nat n) = Z.of_nat n.
Proof.
  intros Hn. destruct n as [|n]; [congruence|].
  rewrite <- Pos.of_nat_succ. now rewrite Zpos_P_of_succ_nat, Nat2Z.inj_succ.
Qed.

Lemma sf_100_is_100 : SF2Prim sf_100 = 100%float.
Proof. reflexivity. Qed.

Lemma sf_100_sval : sval sf_100 = 100 * 2 ^ 1074.
Proof.
  unfold sf_100, sval. change (-46 + 1074) with 1028.
  change 1074 with (46 + 1028). rewrite (Z.pow_add_r 2 46 1028) by lia. lia.
Qed.

Lemma sf_100_canon : nncanon sf_100.
Proof. unfold sf_100, nncanon. lia. Qed.

(** The exact quotient behind a percentage is at most 100. *)
Lemma percent_sval_le_100 (w h y : nat) :
  (w * h)%nat <> 0%nat -> (y <= h)%nat ->
  sval (round_ratio (Z.of_nat (y * w * 100)) (Z.of_nat (w * h)))
  <= 100 * 2 ^ 1074.
Proof.
  intros Hwh Hy.
  rewrite <- (round_ratio_100 (Z.of_nat (w * h))) by lia.
  apply round_ratio_mono; [|lia]. split; [lia|]. nia.
Qed.

Lemma percent_canon (w h y : nat) :
  (w * h)%nat <> 0%nat ->
  nncanon (round_ratio (Z.of_nat (y * w * 100)) (Z.of_nat (w * h))).
Proof. intros Hwh. apply round_ratio_canon; lia. Qed.

Lemma percent_valid (w h y : nat) :
  (w * h)%nat <> 0%nat -> (y <= h)%nat ->
  valid_binary (round_ratio (Z.of_nat (y * w * 100)) (Z.of_nat (w * h))) = true.
Proof.
  intros Hwh Hy. apply nncanon_valid; [now apply percent_canon|].
  apply (sval_small_exponent _ 100); [now apply percent_canon | |].
  - now apply percent_sval_le_100.
  - apply (Z.lt_le_trans _ (2 ^ 7)); [reflexivity|].
    apply Z.pow_le_mono_r; lia.
Qed.

(** Inside the image the division of line 76 returns the percentage. *)
Lemma progress_value_defined (w h y : nat) :
  (w * h)%nat <> 0%nat -> (y <= h)%nat ->
  progress_value y w (w * h) = Ok (percent_of_row w h y).
Proof.
  intros Hwh Hy. unfold progress_value, percent_of_row.
  apply int_true_div_ok; [exact Hwh|].
  apply (sval_small_exponent _ 100); [now apply percent_canon | |].
  - now apply percent_sval_le_100.
  - apply (Z.lt_le_trans _ (2 ^ 7)); [reflexivity|].
    apply Z.pow_le_mono_r; lia.
Qed.

Lemma progress_value_ok (y w h : nat) (p : float) :
  progress_value y w (w * h) = Ok p ->
  (w * h)%nat <> 0%nat /\ p = percent_of_row w h y.
Proof.
  unfold progress_value, int_true_div, percent_of_row.
  destruct (w * h =? 0)%nat eqn:E; [discriminate|].
  apply Nat.eqb_neq in E. intros H. split; [exact E|].
  destruct (round_ratio _ _) as [s|s| |s m e]; try (injection H as <-; reflexivity).
  destruct (971 <? e); [discriminate|]. injection H as <-. reflexivity.
Qed.

Lemma percent_of_row_bounds (w h y : nat) :
  (w * h)%nat <> 0%nat -> (y <= h)%nat ->
  float_le 0 (percent_of_row w h y) /\ float_le (percent_of_row w h y) 100.
Proof.
  intros Hwh Hy. unfold float_le, percent_of_row.
  pose proof (percent_valid w h y Hwh Hy) as Hv.
  pose proof (percent_canon w h y Hwh) as Hc.
  split.
  - change 0%float with (SF2Prim (S754_zero false)).
    apply SF2Prim_leb; [reflexivity | exact Hv |].
    apply nncanon_leb; [exact I | exact Hc |].
    rewrite round_ratio_sval by lia. cbn [sval].
    apply Z.mul_nonneg_nonneg; [|apply Z.pow_nonneg; lia].
    apply mantissa_bounds; lia.
  - rewrite <- sf_100_is_100.
    apply SF2Prim_leb; [exact Hv | reflexivity |].
    apply nncanon_leb; [exact Hc | exact sf_100_canon |].
    rewrite sf_100_sval. now apply percent_sval_le_100.
Qed.

Lemma percent_of_row_le (w h y y' : nat) :
  (w * h)%nat <> 0%nat -> (y <= y')%nat -> (y' <= h)%nat ->
  float_le (percent_of_row w h y) (percent_of_row w h y').
Proof.
  intros Hwh Hy Hy'. unfold float_le, percent_of_row.
  apply SF2Prim_leb; [apply percent_valid; [exact Hwh|lia]
                     | now apply percent_valid |].
  apply nncanon_leb; [now apply percent_canon | now apply percent_canon |].
  apply round_ratio_mono; [|lia]. split; [lia|]. nia.
Qed.

Lemma row_loop_trace (img : image) (target_color : list Z)
    (cb : option callback) (h n : nat) :
  forall (lo : nat) (new_img : image) (trace : list float),
  exists ext,
    fst (row_loop img target_color cb (width img * h) (seq lo n) new_img trace)
      = trace ++ ext
    /\ Forall (reported (width img) h lo n) ext
    /\ (lo + n <= h -> StronglySorted float_le ext)%nat.
Proof.
  induction n as [|n IH]; intros lo new_img trace.
  - exists []. cbn. rewrite app_nil_r. repeat constructor.
  - assert (Hweak : forall ext : list float,
               Forall (reported (width img) h (S lo) n) ext ->
               Forall (reported (width img) h lo (S n)) ext).
    { intros ext HF. eapply Forall_impl; [exact HF|]. intros p (y & Hy & Hrest).
      exists y. split; [lia | exact Hrest]. }
    assert (Hstop : exists ext,
               trace = trace ++ ext
               /\ Forall (reported (width img) h lo (S n)) ext
               /\ (lo + S n <= h -> StronglySorted float_le ext)%nat).
    { exists []. rewrite app_nil_r. repeat constructor. }
    assert (Hskip : forall new1, exists ext,
               fst (row_loop img target_color cb (width img * h)
                      (seq (S lo) n) new1 trace) = trace ++ ext
               /\ Forall (reported (width img) h lo (S n)) ext
               /\ (lo + S n <= h -> StronglySorted float_le ext)%nat).
    { intros new1. destruct (IH (S lo) new1 trace) as (ext & E & F & S).
      exists ext. split; [exact E|]. split; [auto|]. intros Hb. apply S. lia. }
    cbn [seq row_loop].
    destruct (for_each _ (pixel_step img target_color lo) new_img)
      as [new1|e]; [|exact Hstop].
    destruct cb as [f|]; [|apply Hskip].
    destruct (lo mod 10 =? 0)%nat eqn:Hmod; [|apply Hskip].
    apply Nat.eqb_eq in Hmod.
    destruct (progress_value lo (width img) (width img * h)) as [p|e] eqn:Hp;
      [|exact Hstop].
    apply progress_value_ok in Hp as [Hwh ->].
    assert (Hrep : reported (width img) h lo (S n)
                     (percent_of_row (width img) h lo)).
    { exists lo. repeat split; auto; lia. }
    destruct (f _) as [[]|e].
    + destruct (IH (S lo) new1 (trace ++ [percent_of_row (width img) h lo]))
        as (ext & E & F & S).
      exists (percent_of_row (width img) h lo :: ext).
      split; [rewrite E, <- app_assoc; reflexivity|].
      split; [constructor; auto|].
      intros Hb. constructor; [apply S; lia|].
      eapply Forall_impl; [exact F|].
      intros q (y & Hy & _ & _ & ->). apply percent_of_row_le; [exact Hwh|lia|lia].
    + exists [percent_of_row (width img) h lo]. cbn [fst].
      split; [reflexivity|]. split; [repeat constructor; exact Hrep|].
      intros _. repeat constructor.
Qed.

Lemma row_loop_no_callback (img : image) (target_color : list Z) (total : nat)
    (ys : list nat) :
  forall (new_img : image) (trace : list float),
  fst (row_loop img target_color None total ys new_img trace) = trace.
Proof.
  induction ys as [|y ys IH]; intros new_img trace; [reflexivity|].
  cbn [row_loop]. destruct (for_each _ _ _); [apply IH | reflexivity].
Qed.

(** C9, as the code has it.  For every image and every progress callback,
    the percentages [process_image] passes to the callback, which are
    binary64 values, lie between 0 and 100 and never decrease: each is the
    float quotient [y * width * 100 / total_pixels] of a row [y] that is a
    multiple of 10.  Nothing makes the sequence end at 100, and it is empty
    without a callback. *)
Theorem progress_trace_increases_below_100 (convert : image -> string -> image)
    (img : image) (target_color : list Z) (cb : option callback) :
  let trace := fst (process_image convert img target_color cb) in
  Forall (fun p => float_le 0 p /\ float_le p 100) trace
  /\ StronglySorted float_le trace
  /\ Forall (reported (width (normalise convert img))
               (height (normalise convert img)) 0
               (height (normalise convert img))) trace
  /\ (cb = None -> trace = []).
Proof.
  cbv zeta. rewrite process_image_fst.
  set (im := normalise convert img).
  destruct (row_loop_trace im target_color cb (height im) (height im) 0%nat
              (Image_new (mode im) (width im) (height im)) [])
    as (ext & E & F & S).
  cbn [app] in E.
  split; [|split; [|split]].
  - rewrite E. eapply Forall_impl; [exact F|].
    intros p (y & Hy & _ & Hwh & ->). apply percent_of_row_bounds; [exact Hwh|lia].
  - rewrite E. apply S. lia.
  - rewrite E. exact F.
  - intros ->. apply row_loop_no_callback.
Qed.

(** C9, as the specification states it, fails: for an image of one pixel
    the callback is called once, with 0.0, so the sequence ends at 0. *)
Lemma progress_trace_of_one_pixel_ends_at_0 :
  fst (process_image keep_mode one_pixel [255; 0; 0] (Some update_progress))
    = [0%float]
  /\ final_percent
       (fst (process_image keep_mode one_pixel [255; 0; 0] (Some update_progress)))
     = Some 0%float
  /\ PrimFloat.eqb 0 100 = false.
Proof.
  assert (E : fst (process_image keep_mode one_pixel [255; 0; 0]
                     (Some update_progress)) = [0%float])
    by (vm_compute; reflexivity).
  rewrite E. split; [reflexivity|]. split; reflexivity.
Qed.

(** On 25 rows the callback sees 0.0, 40.0 and 80.0. *)
Example progress_trace_of_25_rows :
  fst (process_image keep_mode column_25 [255; 0; 0] (Some update_progress))
  = [0%float; 40%float; 80%float].
Proof. vm_compute. reflexivity. Qed.

(** On 11 rows of 2 pixels the second percentage is the binary64 nearest
    to [1000 / 11]. *)
#[warnings="-inexact-float"]
Example progress_trace_of_11_rows :
  fst (process_image keep_mode two_by_eleven [255; 0; 0] (Some update_progress))
  = [0%float; 90.9090909090909%float]
  /\ 90.9090909090909%float = 0x1.6ba2e8ba2e8bap+6%float.
Proof. vm_compute. auto. Qed.

(** ** The archive *)

Lemma build_archive_map (processed : list (string * bytes * string)) :
  build_archive processed = member_of <$> processed.
Proof.
  unfold build_archive.
  assert (G : forall acc : zip_archive,
             foldl (fun z '(filename, image_data, _) =>
                      writestr z ("transformed_" +:+ filename) image_data)
                   acc processed
             = acc ++ (member_of <$> processed)).
  { induction processed as [|[[f d] fm] l IH]; intros acc.
    - now rewrite app_nil_r.
    - rewrite fmap_cons. cbn [foldl]. rewrite IH. unfold writestr.
      now rewrite <- app_assoc. }
  apply (G []).
Qed.

Lemma prefix_inj (a b : string) :
  "transformed_" +:+ a = "transformed_" +:+ b -> a = b.
Proof. apply (inj (String.append "transformed_")). Qed.

Lemma zip_read_absent (z : zip_archive) (arcname : string) :
  arcname ∉ z.*1 -> zip_read z arcname = None.
Proof.
  induction z as [|[n d] z IH]; intros Hnot; [reflexivity|].
  rewrite fmap_cons in Hnot. cbn [zip_read fst] in *.
  apply not_elem_of_cons in Hnot as [Hne Hnot].
  rewrite (IH Hnot). destruct (decide (n = arcname)); congruence.
Qed.

Lemma zip_read_member (processed : list (string * bytes * string))
    (f : string) (d : bytes) (fm : string) :
  NoDup (result_name <$> processed) ->
  (f, d, fm) ∈ processed ->
  zip_read (member_of <$> processed) ("transformed_" +:+ f) = Some d.
Proof.
  induction processed as [|[[f0 d0] fm0] l IH]; intros Hnd Hin.
  - inversion Hin.
  - rewrite fmap_cons in Hnd. apply NoDup_cons in Hnd as [Hfresh Hnd].
    rewrite fmap_cons. cbn [member_of zip_read].
    apply elem_of_cons in Hin as [[= -> -> ->]|Hin].
    + rewrite zip_read_absent.
      * destruct (decide _); congruence.
      * intros Hin. apply Hfresh.
        apply list_elem_of_fmap in Hin as ([n' d'] & Heq & Hin).
        apply list_elem_of_fmap in Hin as ([[f1 d1] fm1] & [= -> ->] & Hin).
        cbn [fst] in Heq. apply prefix_inj in Heq. subst f1.
        apply list_elem_of_fmap. exists (f0, d1, fm1). auto.
    + now rewrite (IH Hnd Hin).
Qed.

(** C5.  For an ordered sequence of [N] results with distinct file names,
    the archive the loop builds has exactly [N] members; member [i] is
    named ["transformed_"] followed by the name of result [i] and holds its
    bytes, so the order is the order of the results; and reading a member
    by its prefixed name returns those bytes.  [main] builds the archive
    when there is more than one result. *)
Theorem archive_is_complete_and_ordered
    (processed : list (string * bytes * string)) :
  NoDup (result_name <$> processed) ->
  length (build_archive processed) = length processed
  /\ (forall (i : nat) (f : string) (d : bytes) (fm : string),
        processed !! i = Some (f, d, fm) ->
        build_archive processed !! i = Some ("transformed_" +:+ f, d)
        /\ zip_read (build_archive processed) ("transformed_" +:+ f) = Some d)
  /\ main_archive processed
     = if (1 <? length processed)%nat then Some (build_archive processed)
       else None.
Proof.
  intros Hnd. split; [|split; [|reflexivity]].
  { rewrite build_archive_map. apply length_fmap. }
  rewrite build_archive_map. intros i f d fm Hi. split.
  - unfold zip_archive. rewrite list_lookup_fmap, Hi. reflexivity.
  - apply (zip_read_member processed f d fm Hnd).
    eapply list_elem_of_lookup_2; eauto.
Qed.

Lemma archive_is_complete_and_ordered_witness :
  let processed :=
    [("a.bmp", [Byte.x01; Byte.x02], "BMP"); ("b.bmp", [Byte.x03], "BMP")] in
  length (build_archive processed) = length processed
  /\ (forall (i : nat) (f : string) (d : bytes) (fm : string),
        processed !! i = Some (f, d, fm) ->
        build_archive processed !! i = Some ("transformed_" +:+ f, d)
        /\ zip_read (build_archive processed) ("transformed_" +:+ f) = Some d)
  /\ main_archive processed
     = if (1 <? length processed)%nat then Some (build_archive processed)
       else None.
Proof.
  apply (archive_is_complete_and_ordered
           [("a.bmp", [Byte.x01; Byte.x02], "BMP"); ("b.bmp", [Byte.x03], "BMP")]).
  compute_done.
Defined.

Example archive_of_two :
  main_archive
    [("a.bmp", [Byte.x01; Byte.x02], "BMP"); ("b.bmp", [Byte.x03], "BMP")]
  = Some [("transformed_a.bmp", [Byte.x01; Byte.x02]);
          ("transformed_b.bmp", [Byte.x03])].
Proof. reflexivity. Qed.

Example archive_of_one :
  main_archive [("a.bmp", [Byte.x01; Byte.x02], "BMP")] = None.
Proof. reflexivity. Qed.

(** ** The session cache and the batch loop *)

Section BatchProperties.

Variable Image_convert : image -> string -> image.
Variable Image_open : uploaded_file -> image.
Variable save_bmp : image -> bytes.
Variable parse_color : string -> list Z.

Abbreviation batch_step := (batch_step Image_convert Image_open save_bmp parse_color).
Abbreviation batch_loop := (batch_loop Image_convert Image_open save_bmp parse_color).
Abbreviation main := (main Image_convert Image_open save_bmp parse_color).

Lemma batch_step_hit (color : string) (bs : batch_state) (f : uploaded_file)
    (e : cache_entry) :
  processed_images (session bs) !! (name f, color) = Some e ->
  batch_step color bs f
  = BatchState (session bs)
      (results bs ++ [(name f, entry_bytes e, format e)])
      (transform_calls bs).
Proof.
  intros Hhit. unfold StreamlitApp.batch_step. cbv zeta.
  rewrite Hhit. cbn [session results transform_calls]. now rewrite Hhit.
Qed.

Lemma batch_step_failed (color : string) (bs : batch_state) (f : uploaded_file) :
  processed_images (session bs) !! (name f, color) = None ->
  snd (process_image Image_convert (Image_open f) (parse_color color)
         (Some update_progress)) = None ->
  batch_step color bs f
  = BatchState (session bs) (results bs) (transform_calls bs ++ [name f]).
Proof.
  intros Hmiss Hfail. unfold StreamlitApp.batch_step. cbv zeta.
  rewrite Hmiss, Hfail. cbn [session results transform_calls]. now rewrite Hmiss.
Qed.

Lemma batch_step_fresh (color : string) (bs : batch_state) (f : uploaded_file) :
  all_fresh bs -> all_fresh (batch_step color bs f).
Proof.
  intros [Hc Hr].
  destruct (processed_images (session bs) !! (name f, color)) as [e|] eqn:Hk.
  - rewrite (batch_step_hit _ _ _ _ Hk). split; cbn; [exact Hc|].
    intros r Hin. apply elem_of_app in Hin as [Hin|Hin]; [auto|].
    apply list_elem_of_singleton in Hin as ->. cbn. apply (Hc _ color).
    rewrite Hk. eauto.
  - unfold StreamlitApp.batch_step. cbv zeta. rewrite Hk.
    destruct (snd (process_image _ _ _ _)) as [t|];
      cbn [session results transform_calls processed_images].
    + rewrite lookup_insert_eq. split; cbn.
      * intros n c Hs. apply elem_of_app.
        destruct (decide ((name f, color) = (n, c))) as [[= <- <-]|Hne].
        -- right. apply list_elem_of_singleton. reflexivity.
        -- left. rewrite lookup_insert_ne in Hs by exact Hne. eauto.
      * intros r Hin. apply elem_of_app.
        apply elem_of_app in Hin as [Hin|Hin]; [left; auto|].
        apply list_elem_of_singleton in Hin as ->. right.
        apply list_elem_of_singleton. reflexivity.
    + rewrite Hk. split; cbn.
      * intros n c Hs. apply elem_of_app. left. eauto.
      * intros r Hin. apply elem_of_app. left. auto.
Qed.

Lemma batch_loop_fresh (color : string) (files : list uploaded_file) :
  forall bs, all_fresh bs -> all_fresh (foldl (batch_step color) bs files).
Proof.
  induction files as [|f files IH]; intros bs Hbs; [exact Hbs|].
  cbn [foldl]. apply IH, batch_step_fresh, Hbs.
Qed.

(** C6.  When the key [(file name, colour)] of a file is already in the
    cache, the loop iteration for that file serves the stored entry: it
    appends the stored bytes and format to the results, leaves the cache as
    it is, and does not call [process_image]. *)
Theorem cached_entry_is_reused (color : string) (bs : batch_state)
    (f : uploaded_file) (e : cache_entry) :
  processed_images (session bs) !! (name f, color) = Some e ->
  results (batch_step color bs f)
    = results bs ++ [(name f, entry_bytes e, format e)]
  /\ transform_calls (batch_step color bs f) = transform_calls bs
  /\ session (batch_step color bs f) = session bs.
Proof.
  intros Hhit. unfold StreamlitApp.batch_step. cbv zeta.
  rewrite Hhit. cbn [session results transform_calls]. rewrite Hhit.
  cbn [session results transform_calls]. auto.
Qed.

(** C7.  When the selected colour differs from the colour of the session,
    the cache is emptied: a lookup of any key returns nothing.  In the run
    that follows, every result that is served comes from a call of
    [process_image] made in that run, so no entry stored under an earlier
    colour is served. *)
Theorem color_change_clears_cache (color : string) (st : session_state)
    (uploaded_files : list uploaded_file) :
  color <> current_color st ->
  (forall key, processed_images (select_color color st) !! key = None)
  /\ current_color (select_color color st) = color
  /\ (forall r, r ∈ results (fst (main color uploaded_files st)) ->
        result_name r
          ∈ transform_calls (fst (main color uploaded_files st))).
Proof.
  intros Hne. unfold StreamlitApp.main. cbv zeta. cbn [fst].
  unfold select_color.
  destruct (decide (color <> current_color st)) as [_|Hn]; [|contradiction].
  cbn [processed_images current_color].
  split; [intros key; apply lookup_empty|]. split; [reflexivity|].
  unfold StreamlitApp.batch_loop.
  apply batch_loop_fresh.
  split; cbn [session processed_images results transform_calls].
  - intros n c Hs. rewrite lookup_empty in Hs. destruct Hs as [? [=]].
  - intros r Hin. inversion Hin.
Qed.

(** C8.  When the recolouring of some pixel of the normalised image raises,
    [process_image] returns no image, whatever the callback; and the loop
    iteration that called it for a key absent from the cache writes no
    entry: the cache is unchanged, the key stays absent, and no result is
    appended. *)
Theorem failed_transform_is_not_cached (img : image) (target_color : list Z)
    (x y : nat) (e : exn) :
  (x < width (normalise Image_convert img))%nat ->
  (y < height (normalise Image_convert img))%nat ->
  recolour_at (normalise Image_convert img) target_color x y = Raise e ->
  (forall cb, snd (process_image Image_convert img target_color cb) = None)
  /\ (forall color bs f,
        Image_open f = img -> parse_color color = target_color ->
        processed_images (session bs) !! (name f, color) = None ->
        processed_images (session (batch_step color bs f))
          = processed_images (session bs)
        /\ processed_images (session (batch_step color bs f)) !! (name f, color)
           = None
        /\ results (batch_step color bs f) = results bs).
Proof.
  intros Hx Hy Hbad.
  assert (Hnone : forall cb,
             snd (process_image Image_convert img target_color cb) = None)
    by (intros cb; eapply process_image_raises; eauto).
  split; [exact Hnone|].
  intros color bs f <- <- Hmiss.
  rewrite (batch_step_failed _ _ _ Hmiss (Hnone _)).
  cbn [session results]. auto.
Qed.

End BatchProperties.

(** ** The batch loop on sample data *)

Lemma cached_entry_is_reused_witness :
  results (batch_step keep_mode open_one_pixel no_bytes always_red "#FF0000"
             (BatchState warm_session [] []) sample_file)
    = [] ++ [("a.bmp", [Byte.x42], "BMP")]
  /\ transform_calls (batch_step keep_mode open_one_pixel no_bytes always_red
                        "#FF0000" (BatchState warm_session [] []) sample_file)
     = []
  /\ session (batch_step keep_mode open_one_pixel no_bytes always_red "#FF0000"
                (BatchState warm_session [] []) sample_file)
     = warm_session.
Proof.
  apply (cached_entry_is_reused keep_mode open_one_pixel no_bytes always_red
           "#FF0000" (BatchState warm_session [] []) sample_file sample_entry).
  reflexivity.
Defined.

Lemma color_change_clears_cache_witness :
  (forall key, processed_images (select_color "#00FF00" warm_session) !! key = None)
  /\ current_color (select_color "#00FF00" warm_session) = "#00FF00"
  /\ (forall r,
        r ∈ results (fst (main keep_mode open_one_pixel no_bytes always_red
                            "#00FF00" [sample_file] warm_session)) ->
        result_name r
          ∈ transform_calls (fst (main keep_mode open_one_pixel no_bytes
                                    always_red "#00FF00" [sample_file]
                                    warm_session))).
Proof.
  apply (color_change_clears_cache keep_mode open_one_pixel no_bytes always_red
           "#00FF00" warm_session [sample_file]).
  discriminate.
Defined.

Lemma failed_transform_is_not_cached_witness :
  (forall cb,
     snd (process_image keep_mode two_band_pixel [255; 0; 0] cb) = None)
  /\ (forall color bs f,
        open_two_band f = two_band_pixel -> always_red color = [255; 0; 0] ->
        processed_images (session bs) !! (name f, color) = None ->
        processed_images
          (session (batch_step keep_mode open_two_band no_bytes always_red
                      color bs f))
          = processed_images (session bs)
        /\ processed_images
             (session (batch_step keep_mode open_two_band no_bytes always_red
                         color bs f)) !! (name f, color)
           = None
        /\ results (batch_step keep_mode open_two_band no_bytes always_red
                      color bs f) = results bs).
Proof.
  apply (failed_transform_is_not_cached keep_mode open_two_band no_bytes
           always_red two_band_pixel [255; 0; 0] 0 0 ValueError).
  - cbn. lia.
  - cbn. lia.
  - reflexivity.
Defined.

(** A file whose transform fails is called once, and neither cached nor
    served. *)
Example failing_file_run :
  let bs := fst (main keep_mode open_two_band no_bytes always_red "#FF0000"
                   [sample_file] cold_session) in
  transform_calls bs = ["a.bmp"]
  /\ results bs = []
  /\ processed_images (session bs) !! ("a.bmp", "#FF0000") = None.
Proof. vm_compute. auto. Qed.

(** A file listed twice in one batch is transformed once and served twice. *)
Example repeated_file_run :
  let bs := fst (main keep_mode open_one_pixel no_bytes always_red "#FF0000"
                   [sample_file; sample_file] cold_session) in
  transform_calls bs = ["a.bmp"]
  /\ results bs = [("a.bmp", [], "BMP"); ("a.bmp", [], "BMP")].
Proof. vm_compute. auto. Qed.

(** ** Bounds and monotonicity of the scaled channels *)

Lemma chan_fast_sound (d s t c : int) :
  chan_fast d s t = Some c ->
  int_mul_if (Uint63.to_Z t)
    (PrimFloat.div (float_of_int (Uint63.to_Z s)) (float_of_int (Uint63.to_Z d)))
  = Ok (Uint63.to_Z c).
Proof.
  unfold chan_fast, int_mul_if. intros H. rewrite !float_of_int_to_Z.
  now apply fast_trunc_sound.
Qed.

Lemma shape_table_765 : shape_table 765%uint63 766 256 = true.
Proof. vm_compute. reflexivity. Qed.

Lemma to_Z_succ (i : int) :
  Uint63.to_Z i < 1000 -> Uint63.to_Z (i + 1)%uint63 = Uint63.to_Z i + 1.
Proof.
  intros Hi. rewrite Uint63.add_spec, to_Z_1. apply Z.mod_small.
  pose proof (Uint63.to_Z_bounded i). change wB with 9223372036854775808. lia.
Qed.

(** The facts of [shape_check], on the model's own functions. *)
Lemma scaled_shape (t s : Z) :
  0 <= t <= 255 -> 0 <= s <= 765 ->
  int_mul_if t (PrimFloat.div (float_of_int s) (float_of_int 765))
    = Ok (scaled t s)
  /\ 0 <= scaled t s <= t
  /\ (s = 0 -> scaled t s = 0)
  /\ (s = 765 -> scaled t s = t)
  /\ scaled t s <= scaled t (s + 1)
  /\ scaled t s <= scaled (t + 1) s.
Proof.
  intros Ht Hs.
  assert (Es : Uint63.to_Z (Uint63.of_Z s) = s).
  { rewrite of_Z_spec. apply Z.mod_small.
    change wB with 9223372036854775808. lia. }
  assert (Et : Uint63.to_Z (Uint63.of_Z t) = t).
  { rewrite of_Z_spec. apply Z.mod_small.
    change wB with 9223372036854775808. lia. }
  pose proof (all_upto_spec _ _ _ shape_table_765) as H1. rewrite to_Z_0 in H1.
  specialize (H1 ltac:(discriminate) (Uint63.of_Z s)).
  rewrite Es in H1. specialize (H1 ltac:(simpl; lia)).
  pose proof (all_upto_spec _ _ _ H1) as H2. rewrite to_Z_0 in H2.
  specialize (H2 ltac:(discriminate) (Uint63.of_Z t)).
  rewrite Et in H2. specialize (H2 ltac:(simpl; lia)).
  unfold shape_check in H2.
  destruct (chan_fast 765 (Uint63.of_Z s) (Uint63.of_Z t)) as [c|] eqn:Hc;
    [|discriminate].
  apply chan_fast_sound in Hc. rewrite Es, Et in Hc.
  change (Uint63.to_Z 765%uint63) with 765 in Hc.
  assert (Esc : scaled t s = Uint63.to_Z c) by (unfold scaled; now rewrite Hc).
  apply andb_true_iff in H2 as [H2 Hmt]. apply andb_true_iff in H2 as [H2 Hms].
  apply andb_true_iff in H2 as [H2 Hfull]. apply andb_true_iff in H2 as [Hle Hzero].
  apply Uint63.leb_spec in Hle. rewrite Et in Hle.
  pose proof (Uint63.to_Z_bounded c) as Hcb.
  split; [now rewrite Esc|]. split; [lia|].
  split; [|split; [|split]].
  - intros ->. change ((c =? 0)%uint63 = true) in Hzero.
    apply Uint63.eqb_spec in Hzero. subst c. rewrite Esc. reflexivity.
  - intros ->. change ((c =? Uint63.of_Z t)%uint63 = true) in Hfull.
    apply Uint63.eqb_spec in Hfull. subst c. rewrite Esc. exact Et.
  - unfold opt_le in Hms.
    destruct (chan_fast 765 (Uint63.of_Z s + 1)%uint63 (Uint63.of_Z t))
      as [c1|] eqn:Hc1; [|discriminate].
    apply Uint63.leb_spec in Hms. apply chan_fast_sound in Hc1.
    rewrite to_Z_succ, Es, Et in Hc1 by lia.
    change (Uint63.to_Z 765%uint63) with 765 in Hc1.
    unfold scaled at 2. rewrite Hc1. lia.
  - unfold opt_le in Hmt.
    destruct (chan_fast 765 (Uint63.of_Z s) (Uint63.of_Z t + 1)%uint63)
      as [c1|] eqn:Hc1; [|discriminate].
    apply Uint63.leb_spec in Hmt. apply chan_fast_sound in Hc1.
    rewrite to_Z_succ, Es, Et in Hc1 by lia.
    change (Uint63.to_Z 765%uint63) with 765 in Hc1.
    unfold scaled at 2. rewrite Hc1. lia.
Qed.

Lemma scaled_mono_sum (t s : Z) (n : nat) :
  0 <= t <= 255 -> 0 <= s -> s + Z.of_nat n <= 765 ->
  scaled t s <= scaled t (s + Z.of_nat n).
Proof.
  intros Ht Hs. induction n as [|n IH]; intros Hn.
  - rewrite Z.add_0_r. lia.
  - rewrite Nat2Z.inj_succ in *.
    destruct (scaled_shape t (s + Z.of_nat n)) as (_ & _ & _ & _ & Hstep & _);
      [lia | lia |].
    replace (s + Z.succ (Z.of_nat n)) with (s + Z.of_nat n + 1) by lia.
    specialize (IH ltac:(lia)). lia.
Qed.

Lemma scaled_mono_target (t s : Z) (n : nat) :
  0 <= t -> t + Z.of_nat n <= 255 -> 0 <= s <= 765 ->
  scaled t s <= scaled (t + Z.of_nat n) s.
Proof.
  intros Ht Hn Hs. induction n as [|n IH].
  - rewrite Z.add_0_r. lia.
  - rewrite Nat2Z.inj_succ in *.
    destruct (scaled_shape (t + Z.of_nat n) s) as (_ & _ & _ & _ & _ & Hstep);
      [lia | lia |].
    replace (t + Z.succ (Z.of_nat n)) with (t + Z.of_nat n + 1) by lia.
    specialize (IH ltac:(lia)). lia.
Qed.

Lemma scaled_mono (t t' s s' : Z) :
  0 <= t <= t' -> t' <= 255 -> 0 <= s <= s' -> s' <= 765 ->
  scaled t s <= scaled t' s'.
Proof.
  intros Ht Ht' Hs Hs'.
  pose proof (scaled_mono_sum t s (Z.to_nat (s' - s))) as H1.
  pose proof (scaled_mono_target t s' (Z.to_nat (t' - t))) as H2.
  rewrite Z2Nat.id in H1, H2 by lia.
  replace (s + (s' - s)) with s' in H1 by lia.
  replace (t + (t' - t)) with t' in H2 by lia.
  specialize (H1 ltac:(lia) ltac:(lia) ltac:(lia)).
  specialize (H2 ltac:(lia) ltac:(lia) ltac:(lia)). lia.
Qed.

(** Both variants in terms of [scaled]: the single-image variant on every
    pixel, the batch variant off white. *)
Lemma transform_color_scaled (r g b a t0 t1 t2 : Z) :
  channel r -> channel g -> channel b ->
  channel t0 -> channel t1 -> channel t2 ->
  let s := r + g + b in
  let out := [scaled t0 s; scaled t1 s; scaled t2 s] in
  BitmapConverter.transform_color (PTuple [r; g; b]) [t0; t1; t2]
    = Ok (PTuple out)
  /\ BitmapConverter.transform_color (PTuple [r; g; b; a]) [t0; t1; t2]
    = Ok (PTuple (out ++ [a]))
  /\ (~ (r = 255 /\ g = 255 /\ b = 255) ->
      StreamlitApp.transform_color (PTuple [r; g; b]) [t0; t1; t2]
        = Ok (PTuple out)
      /\ StreamlitApp.transform_color (PTuple [r; g; b; a]) [t0; t1; t2]
        = Ok (PTuple (out ++ [a]))).
Proof.
  unfold channel. intros Hr Hg Hb H0 H1 H2. cbv zeta.
  destruct (scaled_shape t0 (r + g + b)) as (E0 & _); [lia|lia|].
  destruct (scaled_shape t1 (r + g + b)) as (E1 & _); [lia|lia|].
  destruct (scaled_shape t2 (r + g + b)) as (E2 & _); [lia|lia|].
  split; [|split; [|intros Hw; split]].
  - tc_unfold. tc_chan E0. tc_chan E1. tc_chan E2. reflexivity.
  - tc_unfold. tc_chan E0. tc_chan E1. tc_chan E2. reflexivity.
  - tc_unfold. rewrite (white_test_false r g b Hw).
    rewrite ?true_div_765. cbn [mbind res_bind bind subscript lookup list_lookup].
    tc_chan E0. tc_chan E1. tc_chan E2. reflexivity.
  - tc_unfold. rewrite (white_test_false r g b Hw).
    rewrite ?true_div_765. cbn [mbind res_bind bind subscript lookup list_lookup].
    tc_chan E0. tc_chan E1. tc_chan E2. reflexivity.
Qed.

(** ** Further properties of [transform_color] *)

Lemma valid_target_inv (target_color : list Z) :
  valid_target target_color ->
  exists t0 t1 t2,
    target_color = [t0; t1; t2] /\ channel t0 /\ channel t1 /\ channel t2.
Proof.
  intros [Hlen Hall].
  destruct target_color as [|t0 [|t1 [|t2 [|? ?]]]]; try discriminate.
  exists t0, t1, t2. rewrite !Forall_cons in Hall. tauto.
Qed.

Lemma valid_tuple_inv (cs : list Z) :
  valid_pixel (PTuple cs) ->
  exists r g b,
    channel r /\ channel g /\ channel b
    /\ (cs = [r; g; b] \/ exists a, channel a /\ cs = [r; g; b; a]).
Proof.
  intros [Hlen Hall].
  destruct cs as [|r [|g [|b [|a [|? ?]]]]]; cbn in Hlen; try lia.
  - exists r, g, b. rewrite !Forall_cons in Hall. tauto.
  - exists r, g, b. rewrite !Forall_cons in Hall.
    split; [tauto|]. split; [tauto|]. split; [tauto|]. right. exists a. tauto.
Qed.

Lemma scaled_channel (t s : Z) :
  channel t -> 0 <= s <= 765 -> channel (scaled t s).
Proof.
  unfold channel. intros Ht Hs.
  destruct (scaled_shape t s Ht Hs) as (_ & Hb & _). lia.
Qed.

Lemma valid_scaled_tuple (t0 t1 t2 s : Z) (rest : list Z) :
  channel t0 -> channel t1 -> channel t2 -> 0 <= s <= 765 ->
  Forall channel rest -> (length rest <= 1)%nat ->
  valid_pixel (PTuple ([scaled t0 s; scaled t1 s; scaled t2 s] ++ rest)).
Proof.
  intros H0 H1 H2 Hs Hrest Hlen. split.
  - destruct rest as [|a [|? ?]]; cbn in *; lia.
  - cbn [app]. repeat (constructor; [now apply scaled_channel|]).
    exact Hrest.
Qed.

(** X1 (single-image variant).  A valid pixel and a valid target colour
    give a valid pixel: no exception, every band a channel; a tuple keeps
    its number of bands and a grayscale value becomes three bands. *)
Theorem single_variant_keeps_pixels_valid (p : pyval) (target_color : list Z) :
  valid_pixel p -> valid_target target_color ->
  exists out,
    BitmapConverter.transform_color p target_color = Ok out
    /\ valid_pixel out
    /\ bands out = match p with PInt _ => 3%nat | PTuple cs => length cs end.
Proof.
  intros Hp Ht.
  destruct (valid_target_inv _ Ht) as (t0 & t1 & t2 & -> & H0 & H1 & H2).
  destruct p as [v|cs].
  - cbn in Hp.
    destruct (gray_as_rgb v t0 t1 t2 Hp) as [-> _].
    destruct (transform_color_scaled v v v 0 t0 t1 t2) as (E & _); auto.
    cbv zeta in E. rewrite E. eexists. split; [reflexivity|]. split.
    + apply (valid_scaled_tuple t0 t1 t2 (v + v + v) []); auto.
      unfold channel in Hp. lia.
    + reflexivity.
  - destruct (valid_tuple_inv _ Hp) as (r & g & b & Hr & Hg & Hb & Hcs).
    assert (Hs : 0 <= r + g + b <= 765) by (unfold channel in *; lia).
    destruct Hcs as [->|(a & Ha & ->)].
    + destruct (transform_color_scaled r g b 0 t0 t1 t2) as (E & _); auto.
      cbv zeta in E. rewrite E. eexists. split; [reflexivity|]. split.
      * apply (valid_scaled_tuple t0 t1 t2 (r + g + b) []); auto.
      * reflexivity.
    + destruct (transform_color_scaled r g b a t0 t1 t2) as (_ & E & _); auto.
      cbv zeta in E. rewrite E. eexists. split; [reflexivity|]. split.
      * apply (valid_scaled_tuple t0 t1 t2 (r + g + b) [a]); auto.
      * reflexivity.
Qed.

Lemma single_variant_keeps_pixels_valid_witness :
  exists out,
    BitmapConverter.transform_color (PTuple [200; 100; 50; 7]) [0; 255; 0]
      = Ok out
    /\ valid_pixel out
    /\ bands out = 4%nat.
Proof.
  apply (single_variant_keeps_pixels_valid (PTuple [200; 100; 50; 7]) [0; 255; 0]).
  - split; [right; reflexivity|]. unfold channel. repeat constructor; lia.
  - split; [reflexivity|]. unfold channel. repeat constructor; lia.
Defined.

Lemma batch_variant_valid (p : pyval) (target_color : list Z) :
  valid_pixel p -> valid_target target_color ->
  exists out,
    StreamlitApp.transform_color p target_color = Ok out
    /\ valid_pixel out
    /\ bands out = match p with
                   | PInt v => if v =? 255 then 1%nat else 3%nat
                   | PTuple cs => length cs
                   end.
Proof.
  intros Hp Ht.
  destruct (valid_target_inv _ Ht) as (t0 & t1 & t2 & -> & H0 & H1 & H2).
  destruct p as [v|cs].
  - cbn in Hp. destruct (v =? 255) eqn:Hv.
    + apply Z.eqb_eq in Hv. subst v. exists (PInt 255).
      split; [reflexivity|]. split; [exact Hp | reflexivity].
    + apply Z.eqb_neq in Hv.
      destruct (gray_as_rgb v t0 t1 t2 Hp) as [_ G]. rewrite (G Hv).
      destruct (transform_color_scaled v v v 0 t0 t1 t2) as (_ & _ & E); auto.
      destruct E as [E _]; [intros (? & _); contradiction|].
      cbv zeta in E. rewrite E. eexists. split; [reflexivity|]. split.
      * apply (valid_scaled_tuple t0 t1 t2 (v + v + v) []); auto.
        unfold channel in Hp. lia.
      * reflexivity.
  - destruct (valid_tuple_inv _ Hp) as (r & g & b & Hr & Hg & Hb & Hcs).
    assert (Hs : 0 <= r + g + b <= 765) by (unfold channel in *; lia).
    destruct ((r =? 255) && (g =? 255) && (b =? 255)) eqn:Hw.
    + apply andb_true_iff in Hw as [Hw Hb']. apply andb_true_iff in Hw as [Hr' Hg'].
      apply Z.eqb_eq in Hr', Hg', Hb'. subst r g b.
      destruct Hcs as [->|(a & Ha & ->)].
      * exists (PTuple [255; 255; 255]). split; [reflexivity|].
        split; [exact Hp | reflexivity].
      * exists (PTuple [255; 255; 255; a]). split; [reflexivity|].
        split; [exact Hp | reflexivity].
    + assert (Hnw : ~ (r = 255 /\ g = 255 /\ b = 255)).
      { intros (-> & -> & ->). discriminate Hw. }
      destruct Hcs as [->|(a & Ha & ->)].
      * destruct (transform_color_scaled r g b 0 t0 t1 t2) as (_ & _ & E); auto.
        destruct (E Hnw) as [E3 _]. cbv zeta in E3. rewrite E3.
        eexists. split; [reflexivity|]. split.
        -- apply (valid_scaled_tuple t0 t1 t2 (r + g + b) []); auto.
        -- reflexivity.
      * destruct (transform_color_scaled r g b a t0 t1 t2) as (_ & _ & E); auto.
        destruct (E Hnw) as [_ E4]. cbv zeta in E4. rewrite E4.
        eexists. split; [reflexivity|]. split.
        -- apply (valid_scaled_tuple t0 t1 t2 (r + g + b) [a]); auto.
        -- reflexivity.
Qed.

(** X2 (batch variant).  A valid pixel and a valid target colour give a
    valid pixel.  A tuple keeps its number of bands; a grayscale value
    becomes three bands, except 255, which stays the integer 255. *)
Theorem batch_variant_keeps_pixels_valid (p : pyval) (target_color : list Z) :
  valid_pixel p -> valid_target target_color ->
  exists out,
    StreamlitApp.transform_color p target_color = Ok out
    /\ valid_pixel out
    /\ bands out = match p with
                   | PInt v => if v =? 255 then 1%nat else 3%nat
                   | PTuple cs => length cs
                   end.
Proof. apply batch_variant_valid. Qed.

Lemma batch_variant_keeps_pixels_valid_witness :
  exists out,
    StreamlitApp.transform_color (PInt 128) [0; 255; 0] = Ok out
    /\ valid_pixel out
    /\ bands out = (if 128 =? 255 then 1%nat else 3%nat).
Proof.
  apply (batch_variant_keeps_pixels_valid (PInt 128) [0; 255; 0]).
  - unfold valid_pixel, channel. lia.
  - split; [reflexivity|]. unfold channel. repeat constructor; lia.
Defined.

(** X3.  Off white in the batch variant, and on every pixel in the
    single-image variant, no colour channel of the result exceeds the
    corresponding channel of the target colour. *)
Theorem result_is_at_most_the_target (r g b t0 t1 t2 : Z) :
  channel r -> channel g -> channel b ->
  channel t0 -> channel t1 -> channel t2 ->
  exists c0 c1 c2,
    0 <= c0 <= t0 /\ 0 <= c1 <= t1 /\ 0 <= c2 <= t2
    /\ BitmapConverter.transform_color (PTuple [r; g; b]) [t0; t1; t2]
       = Ok (PTuple [c0; c1; c2])
    /\ (~ (r = 255 /\ g = 255 /\ b = 255) ->
        StreamlitApp.transform_color (PTuple [r; g; b]) [t0; t1; t2]
        = Ok (PTuple [c0; c1; c2])).
Proof.
  intros Hr Hg Hb H0 H1 H2.
  assert (Hs : 0 <= r + g + b <= 765) by (unfold channel in *; lia).
  destruct (transform_color_scaled r g b 0 t0 t1 t2) as (EB & _ & ES); auto.
  cbv zeta in EB, ES.
  exists (scaled t0 (r + g + b)), (scaled t1 (r + g + b)), (scaled t2 (r + g + b)).
  destruct (scaled_shape t0 (r + g + b) H0 Hs) as (_ & B0 & _).
  destruct (scaled_shape t1 (r + g + b) H1 Hs) as (_ & B1 & _).
  destruct (scaled_shape t2 (r + g + b) H2 Hs) as (_ & B2 & _).
  split; [exact B0|]. split; [exact B1|]. split; [exact B2|].
  split; [exact EB|]. intros Hw. apply (ES Hw).
Qed.

Lemma result_is_at_most_the_target_witness :
  exists c0 c1 c2,
    0 <= c0 <= 10 /\ 0 <= c1 <= 20 /\ 0 <= c2 <= 30
    /\ BitmapConverter.transform_color (PTuple [255; 255; 254]) [10; 20; 30]
       = Ok (PTuple [c0; c1; c2])
    /\ (~ (255 = 255 /\ 255 = 255 /\ 254 = 255) ->
        StreamlitApp.transform_color (PTuple [255; 255; 254]) [10; 20; 30]
        = Ok (PTuple [c0; c1; c2])).
Proof.
  apply (result_is_at_most_the_target 255 255 254 10 20 30);
    unfold channel; lia.
Defined.

(** X4.  Black stays black for every target colour, in both variants:
    a pixel whose colour channels are 0 is mapped to (0, 0, 0), with its
    alpha band if it has one, and the grayscale value 0 to (0, 0, 0). *)
Theorem black_is_preserved (a t0 t1 t2 : Z) :
  channel t0 -> channel t1 -> channel t2 ->
  StreamlitApp.transform_color (PTuple [0; 0; 0]) [t0; t1; t2]
    = Ok (PTuple [0; 0; 0])
  /\ StreamlitApp.transform_color (PTuple [0; 0; 0; a]) [t0; t1; t2]
    = Ok (PTuple [0; 0; 0; a])
  /\ StreamlitApp.transform_color (PInt 0) [t0; t1; t2] = Ok (PTuple [0; 0; 0])
  /\ BitmapConverter.transform_color (PTuple [0; 0; 0]) [t0; t1; t2]
    = Ok (PTuple [0; 0; 0])
  /\ BitmapConverter.transform_color (PTuple [0; 0; 0; a]) [t0; t1; t2]
    = Ok (PTuple [0; 0; 0; a])
  /\ BitmapConverter.transform_color (PInt 0) [t0; t1; t2] = Ok (PTuple [0; 0; 0]).
Proof.
  intros H0 H1 H2.
  assert (Hz : channel 0) by (unfold channel; lia).
  destruct (transform_color_scaled 0 0 0 a t0 t1 t2)
    as (EB3 & EB4 & ES); auto.
  destruct ES as [ES3 ES4]; [intros (? & _); discriminate|].
  cbv zeta in EB3, EB4, ES3, ES4. change (0 + 0 + 0) with 0 in *.
  destruct (scaled_shape t0 0 H0 ltac:(lia)) as (_ & _ & Z0 & _).
  destruct (scaled_shape t1 0 H1 ltac:(lia)) as (_ & _ & Z1 & _).
  destruct (scaled_shape t2 0 H2 ltac:(lia)) as (_ & _ & Z2 & _).
  rewrite (Z0 eq_refl), (Z1 eq_refl), (Z2 eq_refl) in *.
  destruct (gray_as_rgb 0 t0 t1 t2 ltac:(lia)) as [GB GS].
  rewrite GB, (GS ltac:(discriminate)). auto 10.
Qed.

Lemma black_is_preserved_witness :
  StreamlitApp.transform_color (PTuple [0; 0; 0]) [255; 128; 1]
    = Ok (PTuple [0; 0; 0])
  /\ StreamlitApp.transform_color (PTuple [0; 0; 0; 9]) [255; 128; 1]
    = Ok (PTuple [0; 0; 0; 9])
  /\ StreamlitApp.transform_color (PInt 0) [255; 128; 1] = Ok (PTuple [0; 0; 0])
  /\ BitmapConverter.transform_color (PTuple [0; 0; 0]) [255; 128; 1]
    = Ok (PTuple [0; 0; 0])
  /\ BitmapConverter.transform_color (PTuple [0; 0; 0; 9]) [255; 128; 1]
    = Ok (PTuple [0; 0; 0; 9])
  /\ BitmapConverter.transform_color (PInt 0) [255; 128; 1] = Ok (PTuple [0; 0; 0]).
Proof.
  apply (black_is_preserved 9 255 128 1); unfold channel; lia.
Defined.

(** X5.  The single-image variant maps white to the target colour itself,
    for every target colour: an RGB or RGBA white (alpha kept) and the
    grayscale value 255. *)
Theorem single_variant_maps_white_to_target (a t0 t1 t2 : Z) :
  channel t0 -> channel t1 -> channel t2 ->
  BitmapConverter.transform_color (PTuple [255; 255; 255]) [t0; t1; t2]
    = Ok (PTuple [t0; t1; t2])
  /\ BitmapConverter.transform_color (PTuple [255; 255; 255; a]) [t0; t1; t2]
    = Ok (PTuple [t0; t1; t2; a])
  /\ BitmapConverter.transform_color (PInt 255) [t0; t1; t2]
    = Ok (PTuple [t0; t1; t2]).
Proof.
  intros H0 H1 H2.
  assert (Hw : channel 255) by (unfold channel; lia).
  destruct (transform_color_scaled 255 255 255 a t0 t1 t2)
    as (EB3 & EB4 & _); auto.
  cbv zeta in EB3, EB4. change (255 + 255 + 255) with 765 in *.
  destruct (scaled_shape t0 765 H0 ltac:(lia)) as (_ & _ & _ & F0 & _).
  destruct (scaled_shape t1 765 H1 ltac:(lia)) as (_ & _ & _ & F1 & _).
  destruct (scaled_shape t2 765 H2 ltac:(lia)) as (_ & _ & _ & F2 & _).
  rewrite (F0 eq_refl), (F1 eq_refl), (F2 eq_refl) in *.
  destruct (gray_as_rgb 255 t0 t1 t2 ltac:(lia)) as [GB _].
  rewrite GB. auto.
Qed.

Lemma single_variant_maps_white_to_target_witness :
  BitmapConverter.transform_color (PTuple [255; 255; 255]) [12; 200; 0]
    = Ok (PTuple [12; 200; 0])
  /\ BitmapConverter.transform_color (PTuple [255; 255; 255; 77]) [12; 200; 0]
    = Ok (PTuple [12; 200; 0; 77])
  /\ BitmapConverter.transform_color (PInt 255) [12; 200; 0]
    = Ok (PTuple [12; 200; 0]).
Proof.
  apply (single_variant_maps_white_to_target 77 12 200 0); unfold channel; lia.
Defined.

(** X6.  A pixel whose colour channels sum to at least as much as those of
    another pixel is mapped to a result that is at least as large in every
    channel, in both variants (white included: the batch variant maps it to
    255 in every channel). *)
Theorem brighter_pixel_gives_brighter_result (r g b r' g' b' t0 t1 t2 : Z) :
  channel r -> channel g -> channel b ->
  channel r' -> channel g' -> channel b' ->
  channel t0 -> channel t1 -> channel t2 ->
  r + g + b <= r' + g' + b' ->
  (exists c0 c1 c2 d0 d1 d2,
     StreamlitApp.transform_color (PTuple [r; g; b]) [t0; t1; t2]
       = Ok (PTuple [c0; c1; c2])
     /\ StreamlitApp.transform_color (PTuple [r'; g'; b']) [t0; t1; t2]
       = Ok (PTuple [d0; d1; d2])
     /\ c0 <= d0 /\ c1 <= d1 /\ c2 <= d2)
  /\ (exists c0 c1 c2 d0 d1 d2,
     BitmapConverter.transform_color (PTuple [r; g; b]) [t0; t1; t2]
       = Ok (PTuple [c0; c1; c2])
     /\ BitmapConverter.transform_color (PTuple [r'; g'; b']) [t0; t1; t2]
       = Ok (PTuple [d0; d1; d2])
     /\ c0 <= d0 /\ c1 <= d1 /\ c2 <= d2).
Proof.
  intros Hr Hg Hb Hr' Hg' Hb' H0 H1 H2 Hle.
  assert (Hs : 0 <= r + g + b <= 765) by (unfold channel in *; lia).
  assert (Hs' : 0 <= r' + g' + b' <= 765) by (unfold channel in *; lia).
  destruct (transform_color_scaled r g b 0 t0 t1 t2) as (EB & _ & ES); auto.
  destruct (transform_color_scaled r' g' b' 0 t0 t1 t2) as (EB' & _ & ES'); auto.
  cbv zeta in EB, ES, EB', ES'.
  assert (M : forall t, channel t ->
                scaled t (r + g + b) <= scaled t (r' + g' + b')).
  { intros t Ht. unfold channel in Ht. apply scaled_mono; lia. }
  split.
  - destruct (decide (r' = 255 /\ g' = 255 /\ b' = 255)) as [(-> & -> & ->)|Hnw'].
    + destruct (decide (r = 255 /\ g = 255 /\ b = 255)) as [(-> & -> & ->)|Hnw].
      * exists 255, 255, 255, 255, 255, 255. repeat split; lia.
      * destruct (ES Hnw) as [E _].
        destruct (scaled_shape t0 (r + g + b) H0 Hs) as (_ & B0 & _).
        destruct (scaled_shape t1 (r + g + b) H1 Hs) as (_ & B1 & _).
        destruct (scaled_shape t2 (r + g + b) H2 Hs) as (_ & B2 & _).
        do 3 eexists. exists 255, 255, 255.
        split; [exact E|]. split; [reflexivity|].
        unfold channel in *. lia.
    + assert (Hnw : ~ (r = 255 /\ g = 255 /\ b = 255)).
      { intros (-> & -> & ->). apply Hnw'. unfold channel in *. lia. }
      destruct (ES Hnw) as [E _]. destruct (ES' Hnw') as [E' _].
      do 6 eexists. split; [exact E|]. split; [exact E'|]. auto.
  - do 6 eexists. split; [exact EB|]. split; [exact EB'|]. auto.
Qed.

Lemma brighter_pixel_gives_brighter_result_witness :
  (exists c0 c1 c2 d0 d1 d2,
     StreamlitApp.transform_color (PTuple [10; 20; 30]) [0; 255; 99]
       = Ok (PTuple [c0; c1; c2])
     /\ StreamlitApp.transform_color (PTuple [200; 100; 50]) [0; 255; 99]
       = Ok (PTuple [d0; d1; d2])
     /\ c0 <= d0 /\ c1 <= d1 /\ c2 <= d2)
  /\ (exists c0 c1 c2 d0 d1 d2,
     BitmapConverter.transform_color (PTuple [10; 20; 30]) [0; 255; 99]
       = Ok (PTuple [c0; c1; c2])
     /\ BitmapConverter.transform_color (PTuple [200; 100; 50]) [0; 255; 99]
       = Ok (PTuple [d0; d1; d2])
     /\ c0 <= d0 /\ c1 <= d1 /\ c2 <= d2).
Proof.
  apply (brighter_pixel_gives_brighter_result 10 20 30 200 100 50 0 255 99);
    unfold channel; lia.
Defined.

(** X7.  A tuple pixel with fewer than three bands makes both variants
    raise [ValueError], whatever the target colour. *)
Theorem short_pixel_raises (cs target_color : list Z) :
  (length cs < 3)%nat ->
  StreamlitApp.transform_color (PTuple cs) target_color = Raise ValueError
  /\ BitmapConverter.transform_color (PTuple cs) target_color = Raise ValueError.
Proof.
  intros Hlen.
  destruct cs as [|r [|g [|b ?]]]; cbn in Hlen; try lia; split; reflexivity.
Qed.

Lemma short_pixel_raises_witness :
  StreamlitApp.transform_color (PTuple [1; 2]) [255; 0; 0] = Raise ValueError
  /\ BitmapConverter.transform_color (PTuple [1; 2]) [255; 0; 0] = Raise ValueError.
Proof. apply (short_pixel_raises [1; 2] [255; 0; 0]). cbn. lia. Defined.

(** ** Painting an image pixel by pixel *)

Lemma Image_new_well_formed (m : string) (w h : nat) :
  well_formed (Image_new m w h).
Proof.
  split; cbn.
  - apply length_replicate.
  - apply Forall_replicate. apply length_replicate.
Qed.

Lemma putpixel_spec (img : image) (x y : nat) (v : pyval) :
  well_formed img -> (x < width img)%nat -> (y < height img)%nat ->
  exists new,
    putpixel img x y v = Ok new
    /\ well_formed new /\ same_shape new img
    /\ (forall x' y',
          getpixel new x' y'
          = if decide (x' = x /\ y' = y) then Ok v else getpixel img x' y').
Proof.
  intros [Hlen Hrows] Hx Hy. unfold putpixel.
  destruct (rows img !! y) as [row|] eqn:Hrow.
  2:{ apply lookup_ge_None in Hrow. lia. }
  assert (Hw : length row = width img).
  { rewrite Forall_forall in Hrows. apply Hrows.
    eapply list_elem_of_lookup_2; eauto. }
  destruct (decide (x < length row)%nat) as [_|Hn]; [|lia].
  eexists. split; [reflexivity|]. split; [|split].
  - split; cbn.
    + now rewrite length_insert.
    + apply Forall_insert; [exact Hrows|]. now rewrite length_insert.
  - repeat split.
  - intros x' y'. unfold getpixel. cbn [rows].
    destruct (decide (y' = y)) as [->|Hy'].
    + rewrite list_lookup_insert_eq by lia.
      destruct (decide (x' = x)) as [->|Hx'].
      * rewrite list_lookup_insert_eq by lia.
        destruct (decide _) as [_|Hn]; [reflexivity|]. exfalso; auto.
      * rewrite list_lookup_insert_ne by auto. rewrite Hrow.
        destruct (decide _) as [[? _]|_]; [contradiction|reflexivity].
    + rewrite list_lookup_insert_ne by auto.
      destruct (decide _) as [[_ ?]|_]; [contradiction|reflexivity].
Qed.

Section Paint.

(** The value required at each coordinate, and the size of the image. *)
Variable R : nat -> nat -> res pyval.
Variable w h : nat.

Abbreviation fits := (has_size w h).

Lemma painted_fits (S : nat -> nat -> Prop) (old new : image) :
  fits old -> painted R S old new -> fits new.
Proof.
  intros (_ & Hw & Hh) (Hwf & (_ & Hw' & Hh') & _).
  split; [exact Hwf|]. split; congruence.
Qed.

(** A loop whose every iteration paints its region paints the union. *)
Lemma for_each_paints (ks : list nat) (body : nat -> image -> res image)
    (region : nat -> nat -> nat -> Prop) :
  (forall k old, k ∈ ks -> fits old ->
     exists new, body k old = Ok new /\ painted R (region k) old new) ->
  forall old, fits old ->
  exists new,
    for_each ks body old = Ok new
    /\ painted R (fun x y => exists k, k ∈ ks /\ region k x y) old new.
Proof.
  induction ks as [|k ks IH]; intros Hbody old Hold.
  - exists old. split; [reflexivity|]. split; [apply Hold|].
    split; [repeat split|]. split; [|auto].
    intros x y (k & Hk & _). inversion Hk.
  - destruct (Hbody k old) as (mid & Hmid & Pmid); [left | exact Hold |].
    assert (Hfit : fits mid) by (eapply painted_fits; eauto).
    destruct (IH (fun k' old' Hk' => Hbody k' old' (list_elem_of_further _ _ _ Hk'))
                mid Hfit) as (new & Hnew & Pnew).
    exists new. cbn [for_each mbind res_bind bind]. rewrite Hmid.
    split; [exact Hnew|].
    destruct Pmid as (_ & (Hm1 & Hw1 & Hh1) & Hin1 & Hor1).
    destruct Pnew as (Hwf2 & (Hm2 & Hw2 & Hh2) & Hin2 & Hor2).
    split; [exact Hwf2|]. split; [repeat split; congruence|]. split.
    + intros x y (k' & Hk' & Hreg).
      apply elem_of_cons in Hk' as [->|Hk'].
      * destruct (Hor2 x y) as [E|E]; [exact E|]. rewrite E. now apply Hin1.
      * apply Hin2. eauto.
    + intros x y. destruct (Hor2 x y) as [E|E]; [now left|].
      rewrite E. apply Hor1.
Qed.

End Paint.

(** One pixel step paints its coordinate, for either [transform_color]. *)
Lemma step_paints (tc : pyval -> list Z -> res pyval) (img : image)
    (target_color : list Z) (x y : nat) (old : image) :
  has_size (width old) (height old) old ->
  (x < width old)%nat -> (y < height old)%nat ->
  is_ok (recolour_with tc img target_color x y) = true ->
  exists new,
    (pixel ← getpixel img x y;
     new_pixel ← tc pixel target_color;
     putpixel old x y new_pixel) = Ok new
    /\ painted (recolour_with tc img target_color)
         (fun x' y' => x' = x /\ y' = y) old new.
Proof.
  intros (Hwf & _) Hx Hy Hok. unfold recolour_with in *.
  destruct (getpixel img x y) as [p|e] eqn:Hp; [|discriminate].
  cbn [mbind res_bind bind] in *.
  destruct (tc p target_color) as [v|e] eqn:Hv; [|discriminate].
  destruct (putpixel_spec old x y v Hwf Hx Hy) as (new & Hput & Hwf' & Hsh & Hget).
  exists new. split; [exact Hput|]. split; [exact Hwf'|]. split; [exact Hsh|].
  split.
  - intros x' y' [-> ->]. rewrite Hget, Hp. cbn [mbind res_bind bind].
    rewrite Hv. destruct (decide _) as [_|Hn]; [reflexivity|]. exfalso; auto.
  - intros x' y'. rewrite Hget.
    destruct (decide _) as [[-> ->]|_]; [left|right; reflexivity].
    rewrite Hp. cbn [mbind res_bind bind]. now rewrite Hv.
Qed.

(** Row [y] of the batch variant's inner loop. *)
Lemma row_paints (img : image) (target_color : list Z) (w h y : nat)
    (old : image) :
  has_size w h old -> (y < h)%nat ->
  (forall x, (x < w)%nat -> is_ok (recolour_at img target_color x y) = true) ->
  exists new,
    for_each (seq 0 w) (pixel_step img target_color y) old = Ok new
    /\ painted (recolour_at img target_color)
         (fun x' y' => (x' < w)%nat /\ y' = y) old new.
Proof.
  intros Hold Hy Hok.
  destruct (for_each_paints (recolour_at img target_color) w h (seq 0 w)
              (pixel_step img target_color y)
              (fun k x' y' => x' = k /\ y' = y)) with (old := old)
    as (new & Hrun & Hwf & Hsh & Hin & Hor).
  - intros k old' Hk (Hwf' & Hw' & Hh'). apply elem_of_seq in Hk.
    apply (step_paints StreamlitApp.transform_color img target_color k y old').
    + split; [exact Hwf'|split; reflexivity].
    + lia.
    + lia.
    + apply Hok. lia.
  - exact Hold.
  - exists new. split; [exact Hrun|]. split; [exact Hwf|]. split; [exact Hsh|].
    split; [|exact Hor].
    intros x' y' [Hx' ->]. apply Hin. exists x'. split; [|auto].
    apply elem_of_seq. lia.
Qed.

Lemma painted_trans (R : nat -> nat -> res pyval) (S1 S2 : nat -> nat -> Prop)
    (old mid new : image) :
  painted R S1 old mid -> painted R S2 mid new ->
  painted R (fun x y => S1 x y \/ S2 x y) old new.
Proof.
  intros (_ & (Hm1 & Hw1 & Hh1) & Hin1 & Hor1)
         (Hwf2 & (Hm2 & Hw2 & Hh2) & Hin2 & Hor2).
  split; [exact Hwf2|]. split; [repeat split; congruence|]. split.
  - intros x y [H1|H2]; [|now apply Hin2].
    destruct (Hor2 x y) as [E|E]; [exact E|]. rewrite E. now apply Hin1.
  - intros x y. destruct (Hor2 x y) as [E|E]; [now left|].
    rewrite E. apply Hor1.
Qed.

Lemma painted_weaken (R : nat -> nat -> res pyval) (S S' : nat -> nat -> Prop)
    (old new : image) :
  (forall x y, S' x y -> S x y) -> painted R S old new -> painted R S' old new.
Proof.
  intros Himp (Hwf & Hsh & Hin & Hor).
  split; [exact Hwf|]. split; [exact Hsh|]. split; [|exact Hor].
  intros x y HS. apply Hin, Himp, HS.
Qed.

Lemma full_trace_cons_report (f : callback) (w h lo n : nat) :
  (lo mod 10 = 0)%nat ->
  full_trace (Some f) w h lo (S n)
  = percent_of_row w h lo :: full_trace (Some f) w h (S lo) n.
Proof.
  intros Hm. unfold full_trace, reporting_rows. cbn [seq].
  rewrite filter_cons. destruct (decide _) as [_|Hn]; [|contradiction].
  now rewrite fmap_cons.
Qed.

Lemma full_trace_cons_skip (cb : option callback) (w h lo n : nat) :
  (lo mod 10 <> 0)%nat ->
  full_trace cb w h lo (S n) = full_trace cb w h (S lo) n.
Proof.
  intros Hm. destruct cb as [f|]; [|reflexivity].
  unfold full_trace, reporting_rows. cbn [seq].
  rewrite filter_cons. destruct (decide _) as [Hy|_]; [contradiction|].
  reflexivity.
Qed.

(** A run of the outer loop in which no pixel and no callback raises. *)
Lemma row_loop_paints (img : image) (target_color : list Z)
    (cb : option callback) (h n : nat) :
  callback_returns cb ->
  (cb = None \/ (width img * h)%nat <> 0%nat) ->
  forall (lo : nat) (old : image) (trace : list float),
  has_size (width img) h old -> (lo + n <= h)%nat ->
  (forall x y, (x < width img)%nat -> (lo <= y < lo + n)%nat ->
               is_ok (recolour_at img target_color x y) = true) ->
  exists new,
    row_loop img target_color cb (width img * h) (seq lo n) old trace
      = (trace ++ full_trace cb (width img) h lo n, Ok new)
    /\ painted (recolour_at img target_color)
         (fun x y => (x < width img)%nat /\ (lo <= y < lo + n)%nat) old new.
Proof.
  intros Hcb Hdiv. induction n as [|n IH]; intros lo old trace Hold Hn Hok.
  - exists old. split.
    + cbn. destruct cb; cbn; now rewrite app_nil_r.
    + split; [apply Hold|]. split; [repeat split|]. split; [|auto].
      intros x y (_ & Hy). lia.
  - destruct (row_paints img target_color (width img) h lo old Hold)
      as (mid & Hrow & Pmid); [lia | intros x Hx; apply Hok; lia |].
    assert (Hmid : has_size (width img) h mid) by (eapply painted_fits; eauto).
    assert (Hrest : forall trace',
               exists new,
                 row_loop img target_color cb (width img * h)
                   (seq (S lo) n) mid trace'
                 = (trace' ++ full_trace cb (width img) h (S lo) n, Ok new)
                 /\ painted (recolour_at img target_color)
                      (fun x y => (x < width img)%nat
                                  /\ (lo <= y < lo + S n)%nat) old new).
    { intros trace'.
      destruct (IH (S lo) mid trace' Hmid) as (new & Hrun & Pnew);
        [lia | intros x y Hx Hy; apply Hok; lia |].
      exists new. split; [exact Hrun|].
      eapply painted_weaken; [|exact (painted_trans _ _ _ _ _ _ Pmid Pnew)].
      intros x y (Hx & Hy). cbn beta.
      destruct (decide (y = lo)) as [->|Hne]; [left; auto | right; split; lia]. }
    cbn [seq row_loop]. rewrite Hrow.
    destruct cb as [f|].
    + destruct (lo mod 10 =? 0)%nat eqn:Hmod.
      * apply Nat.eqb_eq in Hmod.
        destruct Hdiv as [Hnone|Hwh]; [discriminate|].
        rewrite (progress_value_defined (width img) h lo Hwh ltac:(lia)).
        specialize (Hcb f (percent_of_row (width img) h lo) eq_refl).
        destruct (f (percent_of_row (width img) h lo)) as [u|e]; [|discriminate].
        destruct (Hrest (trace ++ [percent_of_row (width img) h lo]))
          as (new & Hrun & Pnew).
        exists new. split; [|exact Pnew].
        rewrite Hrun, full_trace_cons_report by exact Hmod.
        now rewrite <- app_assoc.
      * apply Nat.eqb_neq in Hmod.
        destruct (Hrest trace) as (new & Hrun & Pnew).
        exists new. split; [|exact Pnew].
        now rewrite Hrun, full_trace_cons_skip.
    + destruct (Hrest trace) as (new & Hrun & Pnew).
      exists new. split; [|exact Pnew]. exact Hrun.
Qed.

(** ** [process_image] on runs that end normally *)

Lemma process_image_succeeds (convert : image -> string -> image) (img : image)
    (target_color : list Z) (cb : option callback) :
  let im := normalise convert img in
  callback_returns cb ->
  (cb = None \/ width im <> 0%nat) ->
  (forall x y, (x < width im)%nat -> (y < height im)%nat ->
               is_ok (recolour_at im target_color x y) = true) ->
  exists out,
    process_image convert img target_color cb
      = (full_trace cb (width im) (height im) 0 (height im), Some out)
    /\ same_shape out im /\ well_formed out
    /\ (forall x y, (x < width im)%nat -> (y < height im)%nat ->
                    getpixel out x y = recolour_at im target_color x y).
Proof.
  cbv zeta. set (im := normalise convert img). intros Hcb Hdiv Hok.
  unfold process_image. fold im. cbv zeta.
  assert (Hnew : has_size (width im) (height im)
                   (Image_new (mode im) (width im) (height im))).
  { split; [apply Image_new_well_formed|]. split; reflexivity. }
  assert (Hsh0 : same_shape (Image_new (mode im) (width im) (height im)) im).
  { repeat split. }
  destruct (height im) as [|h'] eqn:Hh.
  - exists (Image_new (mode im) (width im) 0).
    cbn [seq row_loop]. split; [|split; [|split]].
    + destruct cb; reflexivity.
    + destruct Hsh0 as (? & ? & ?). repeat split; auto.
    + apply Image_new_well_formed.
    + intros x y _ Hy. lia.
  - assert (Hdiv' : cb = None \/ (width im * S h')%nat <> 0%nat).
    { destruct Hdiv as [?|Hw]; [now left | right; lia]. }
    destruct (row_loop_paints im target_color cb (S h') (S h') Hcb Hdiv'
                0%nat (Image_new (mode im) (width im) (S h')) [] Hnew)
      as (out & Hrun & Hwf & (Hm & Hw & Hh') & Hin & _);
      [lia | intros x y Hx Hy; apply Hok; lia |].
    exists out. rewrite Hrun. cbn [app]. split; [reflexivity|].
    split; [|split; [exact Hwf|]].
    + destruct Hsh0 as (? & ? & ?). repeat split; congruence.
    + intros x y Hx Hy. apply Hin. split; [exact Hx | lia].
Qed.

(** X8.  When no pixel makes [transform_color] raise and the callback does
    not raise (and the image is not of width 0 with a callback),
    [process_image] returns an image of the mode and size of the normalised
    input, in which every pixel is the recoloured pixel of the input at the
    same coordinate. *)
Theorem process_image_recolours_every_pixel
    (convert : image -> string -> image) (img : image)
    (target_color : list Z) (cb : option callback) :
  let im := normalise convert img in
  callback_returns cb ->
  (cb = None \/ width im <> 0%nat) ->
  (forall x y, (x < width im)%nat -> (y < height im)%nat ->
               is_ok (recolour_at im target_color x y) = true) ->
  exists out,
    snd (process_image convert img target_color cb) = Some out
    /\ same_shape out im /\ well_formed out
    /\ (forall x y, (x < width im)%nat -> (y < height im)%nat ->
                    getpixel out x y = recolour_at im target_color x y).
Proof.
  cbv zeta. intros Hcb Hdiv Hok.
  destruct (process_image_succeeds convert img target_color cb Hcb Hdiv Hok)
    as (out & Hrun & Hrest).
  exists out. rewrite Hrun. split; [reflexivity | exact Hrest].
Qed.

(** X9.  On such a run with a callback, the callback receives exactly the
    binary64 quotients [(y * width * 100) / total_pixels] of the rows
    [y = 0, 10, 20, ...] below the height, in that order. *)
Theorem process_image_reports_every_tenth_row
    (convert : image -> string -> image) (img : image)
    (target_color : list Z) (f : callback) :
  let im := normalise convert img in
  (forall p, is_ok (f p) = true) ->
  width im <> 0%nat ->
  (forall x y, (x < width im)%nat -> (y < height im)%nat ->
               is_ok (recolour_at im target_color x y) = true) ->
  fst (process_image convert img target_color (Some f))
  = percent_of_row (width im) (height im)
      <$> filter (fun y => (y mod 10 = 0)%nat) (seq 0 (height im)).
Proof.
  cbv zeta. intros Hf Hw Hok.
  destruct (process_image_succeeds convert img target_color (Some f))
    as (out & Hrun & _); [| now right | exact Hok |].
  - intros f' p [= <-]. apply Hf.
  - rewrite Hrun. reflexivity.
Qed.

(** X10.  An image of width 0 and positive height makes [process_image]
    return [None] as soon as a callback is given (the percentage is a
    division by zero), with no percentage reported; without a callback it
    returns the empty image of that size. *)
Theorem zero_width_image (convert : image -> string -> image) (img : image)
    (target_color : list Z) (f : callback) :
  let im := normalise convert img in
  width im = 0%nat -> (0 < height im)%nat ->
  process_image convert img target_color (Some f) = ([], None)
  /\ process_image convert img target_color None
     = ([], Some (Image_new (mode im) 0 (height im))).
Proof.
  cbv zeta. set (im := normalise convert img). intros Hw Hh.
  unfold process_image. fold im. cbv zeta. rewrite Hw.
  destruct (height im) as [|h']; [lia|]. split.
  - cbn [seq row_loop]. rewrite Hw. reflexivity.
  - assert (G : forall ys new_img trace,
               row_loop im target_color None (0 * S h') ys new_img trace
               = (trace, Ok new_img)).
    { induction ys as [|y ys IH]; intros new_img trace; [reflexivity|].
      cbn [row_loop]. rewrite Hw. cbn [seq for_each]. apply IH. }
    now rewrite G.
Qed.

Lemma column_25_recolours (x y : nat) :
  (x < 1)%nat -> (y < 25)%nat ->
  is_ok (recolour_at (normalise keep_mode column_25) [255; 0; 0] x y) = true.
Proof.
  intros Hx Hy. destruct x as [|x]; [|lia].
  do 25 (destruct y as [|y]; [vm_compute; reflexivity|]). lia.
Qed.

Lemma process_image_recolours_every_pixel_witness :
  exists out,
    snd (process_image keep_mode column_25 [255; 0; 0] (Some update_progress))
      = Some out
    /\ same_shape out (normalise keep_mode column_25) /\ well_formed out
    /\ (forall x y, (x < 1)%nat -> (y < 25)%nat ->
                    getpixel out x y
                    = recolour_at (normalise keep_mode column_25) [255; 0; 0] x y).
Proof.
  apply (process_image_recolours_every_pixel keep_mode column_25 [255; 0; 0]
           (Some update_progress)).
  - intros f p [= <-]. reflexivity.
  - right. discriminate.
  - exact column_25_recolours.
Defined.

Lemma process_image_reports_every_tenth_row_witness :
  fst (process_image keep_mode column_25 [255; 0; 0] (Some update_progress))
  = percent_of_row 1 25 <$> filter (fun y => (y mod 10 = 0)%nat) (seq 0 25).
Proof.
  apply (process_image_reports_every_tenth_row keep_mode column_25 [255; 0; 0]
           update_progress).
  - intros p. reflexivity.
  - discriminate.
  - exact column_25_recolours.
Defined.

Lemma zero_width_image_witness :
  process_image keep_mode no_columns [255; 0; 0] (Some update_progress)
    = ([], None)
  /\ process_image keep_mode no_columns [255; 0; 0] None
     = ([], Some (Image_new "RGB" 0 3)).
Proof.
  apply (zero_width_image keep_mode no_columns [255; 0; 0] update_progress).
  - reflexivity.
  - cbn. lia.
Defined.

Lemma normalise_valid (convert : image -> string -> image) (img : image) :
  valid_image img -> normalise convert img = img.
Proof.
  unfold normalise. intros [[Hm _]|[Hm _]]; rewrite Hm; reflexivity.
Qed.

Lemma valid_image_bands (img : image) :
  valid_image img ->
  exists band, (band = 3 \/ band = 4)%nat /\ pixels_valid band img.
Proof. intros [[_ H]|[_ H]]; eauto. Qed.


Lemma four_rgba_valid : valid_image four_rgba.
Proof.
  right. split; [reflexivity|]. intros x y Hx Hy. cbn in Hx, Hy.
  destruct y as [|[|y]]; [| |lia];
    (destruct x as [|[|x]]; [| |lia]);
    (eexists; split; [reflexivity|]; split; [|reflexivity];
     split; [right; reflexivity|]; unfold channel; repeat constructor; lia).
Qed.

Lemma four_rgba_no_white : no_white_pixel four_rgba.
Proof.
  intros x y r g b rest Hp.
  destruct y as [|[|y]]; (destruct x as [|[|x]]); cbn in Hp;
    try discriminate; injection Hp as <- <- <- <-; lia.
Qed.

Lemma red_is_valid_target : valid_target [255; 0; 0].
Proof. split; [reflexivity|]. unfold channel. repeat constructor; lia. Qed.



(** ** The single-image [process_image] *)

Lemma column_paints (img : image) (target_color : list Z) (w h x : nat)
    (old : image) :
  has_size w h old -> (x < w)%nat ->
  (forall y, (y < h)%nat ->
     is_ok (recolour_with BitmapConverter.transform_color img target_color x y)
     = true) ->
  exists new,
    for_each (seq 0 h) (BitmapImage.pixel_step img target_color x) old = Ok new
    /\ painted (recolour_with BitmapConverter.transform_color img target_color)
         (fun x' y' => x' = x /\ (y' < h)%nat) old new.
Proof.
  intros Hold Hx Hok.
  destruct (for_each_paints
              (recolour_with BitmapConverter.transform_color img target_color)
              w h (seq 0 h) (BitmapImage.pixel_step img target_color x)
              (fun k x' y' => x' = x /\ y' = k)) with (old := old)
    as (new & Hrun & Hwf & Hsh & Hin & Hor).
  - intros k old' Hk (Hwf' & Hw' & Hh'). apply elem_of_seq in Hk.
    apply (step_paints BitmapConverter.transform_color img target_color x k old').
    + split; [exact Hwf'|split; reflexivity].
    + lia.
    + lia.
    + apply Hok. lia.
  - exact Hold.
  - exists new. split; [exact Hrun|]. split; [exact Hwf|]. split; [exact Hsh|].
    split; [|exact Hor].
    intros x' y' [-> Hy']. apply Hin. exists y'. split; [|auto].
    apply elem_of_seq. lia.
Qed.

Lemma single_process_image_paints
    (convert : image -> string -> image) (img : image)
    (target_color : list Z) :
  let im := BitmapImage.normalise convert img in
  (forall x y, (x < width im)%nat -> (y < height im)%nat ->
     is_ok (recolour_with BitmapConverter.transform_color im target_color x y)
     = true) ->
  exists out,
    BitmapImage.process_image convert img target_color = Ok out
    /\ same_shape out im /\ well_formed out
    /\ (forall x y, (x < width im)%nat -> (y < height im)%nat ->
          getpixel out x y
          = recolour_with BitmapConverter.transform_color im target_color x y).
Proof.
  cbv zeta. set (im := BitmapImage.normalise convert img). intros Hok.
  unfold BitmapImage.process_image. fold im. cbv zeta.
  assert (Hnew : has_size (width im) (height im)
                   (Image_new (mode im) (width im) (height im))).
  { split; [apply Image_new_well_formed|]. split; reflexivity. }
  destruct (for_each_paints
              (recolour_with BitmapConverter.transform_color im target_color)
              (width im) (height im) (seq 0 (width im))
              (fun x new_img =>
                 for_each (seq 0 (height im))
                   (BitmapImage.pixel_step im target_color x) new_img)
              (fun k x' y' => x' = k /\ (y' < height im)%nat))
    with (old := Image_new (mode im) (width im) (height im))
    as (out & Hrun & Hwf & (Hm & Hw & Hh) & Hin & _).
  - intros k old Hk Hold. apply elem_of_seq in Hk.
    apply (column_paints im target_color (width im) (height im) k old Hold);
      [lia|]. intros y Hy. apply Hok; [lia | exact Hy].
  - exact Hnew.
  - exists out. split; [exact Hrun|]. split; [repeat split; assumption|].
    split; [exact Hwf|].
    intros x y Hx Hy. apply Hin. exists x. split; [|auto].
    apply elem_of_seq. lia.
Qed.


(** X12.  When no pixel makes [transform_color] raise, the single-image
    [process_image] returns an image of the mode and size of the normalised
    input in which every pixel is the recoloured pixel of the input at the
    same coordinate. *)
Theorem single_process_image_recolours_every_pixel
    (convert : image -> string -> image) (img : image)
    (target_color : list Z) :
  let im := BitmapImage.normalise convert img in
  (forall x y, (x < width im)%nat -> (y < height im)%nat ->
     is_ok (recolour_with BitmapConverter.transform_color im target_color x y)
     = true) ->
  exists out,
    BitmapImage.process_image convert img target_color = Ok out
    /\ same_shape out im /\ well_formed out
    /\ (forall x y, (x < width im)%nat -> (y < height im)%nat ->
          getpixel out x y
          = recolour_with BitmapConverter.transform_color im target_color x y).
Proof. apply single_process_image_paints. Qed.

Lemma single_process_image_recolours_every_pixel_witness :
  exists out,
    BitmapImage.process_image keep_mode six_pixels [255; 0; 0] = Ok out
    /\ same_shape out (BitmapImage.normalise keep_mode six_pixels)
    /\ well_formed out
    /\ (forall x y, (x < 2)%nat -> (y < 3)%nat ->
          getpixel out x y
          = recolour_with BitmapConverter.transform_color
              (BitmapImage.normalise keep_mode six_pixels) [255; 0; 0] x y).
Proof.
  apply (single_process_image_recolours_every_pixel keep_mode six_pixels
           [255; 0; 0]).
  intros x y Hx Hy. cbn in Hx, Hy.
  destruct y as [|[|[|y]]]; [| | |lia];
    (destruct x as [|[|x]]; [| |lia]); vm_compute; reflexivity.
Defined.

(** X13.  The single-image [process_image] has no [try]: when the
    recolouring of a pixel of the normalised image raises, the function
    raises. *)
Theorem single_process_image_raises
    (convert : image -> string -> image) (img : image)
    (target_color : list Z) (x y : nat) (e : exn) :
  let im := BitmapImage.normalise convert img in
  (x < width im)%nat -> (y < height im)%nat ->
  recolour_with BitmapConverter.transform_color im target_color x y = Raise e ->
  exists e', BitmapImage.process_image convert img target_color = Raise e'.
Proof.
  cbv zeta. set (im := BitmapImage.normalise convert img). intros Hx Hy Hbad.
  unfold BitmapImage.process_image. fold im. cbv zeta.
  destruct (for_each _ _ _) as [out|e'] eqn:Hrun; [|eauto]. exfalso.
  destruct (for_each_ok_inv _ _ _ _ x Hrun) as (s0 & s1 & Hcol).
  { apply elem_of_seq. lia. }
  destruct (for_each_ok_inv _ _ _ _ y Hcol) as (n0 & n1 & Hstep).
  { apply elem_of_seq. lia. }
  unfold BitmapImage.pixel_step, recolour_with in *.
  destruct (getpixel im x y) as [p|]; cbn [mbind res_bind bind] in *;
    [|discriminate].
  rewrite Hbad in Hstep. discriminate.
Qed.

Lemma single_process_image_raises_witness :
  exists e', BitmapImage.process_image keep_mode two_band_pixel [255; 0; 0]
             = Raise e'.
Proof.
  apply (single_process_image_raises keep_mode two_band_pixel [255; 0; 0]
           0 0 ValueError).
  - cbn. lia.
  - cbn. lia.
  - reflexivity.
Defined.

(** ** The two variants on the same image *)

Lemma image_ext (a b : image) :
  well_formed a -> well_formed b -> same_shape a b ->
  (forall x y, (x < width a)%nat -> (y < height a)%nat ->
               getpixel a x y = getpixel b x y) ->
  a = b.
Proof.
  destruct a as [ma wa ha ra], b as [mb wb hb rb].
  intros [Hla Hra] [Hlb Hrb] (Hm & Hw & Hh) Hget. cbn in *.
  assert (Erows : ra = rb); [|rewrite Hm, Hw, Hh, Erows; reflexivity].
  rewrite <- Hw in Hrb. rewrite <- Hh in Hlb. clear Hm Hw Hh.
  apply list_eq. intros y.
  destruct (decide (y < ha)%nat) as [Hy|Hy].
  2:{ rewrite !lookup_ge_None_2 by lia. reflexivity. }
  destruct (lookup_lt_is_Some_2 ra y ltac:(lia)) as [rowa Ha].
  destruct (lookup_lt_is_Some_2 rb y ltac:(lia)) as [rowb Hb].
  rewrite Ha, Hb. f_equal.
  assert (Hwa : length rowa = wa).
  { rewrite Forall_forall in Hra. eapply Hra, list_elem_of_lookup_2; eauto. }
  assert (Hwb : length rowb = wa).
  { rewrite Forall_forall in Hrb. eapply Hrb, list_elem_of_lookup_2; eauto. }
  apply list_eq. intros x.
  destruct (decide (x < wa)%nat) as [Hx|Hx].
  2:{ rewrite !lookup_ge_None_2 by lia. reflexivity. }
  specialize (Hget x y Hx Hy). unfold getpixel in Hget. cbn in Hget.
  rewrite Ha, Hb in Hget.
  destruct (lookup_lt_is_Some_2 rowa x ltac:(lia)) as [pa Hpa].
  destruct (lookup_lt_is_Some_2 rowb x ltac:(lia)) as [pb Hpb].
  rewrite Hpa, Hpb in *. congruence.
Qed.

Lemma variants_agree_on_valid_pixel (p : pyval) (target_color : list Z) :
  valid_pixel p -> valid_target target_color ->
  (forall r g b rest, p = PTuple (r :: g :: b :: rest) ->
                      ~ (r = 255 /\ g = 255 /\ b = 255)) ->
  (exists cs, p = PTuple cs) ->
  BitmapConverter.transform_color p target_color
  = StreamlitApp.transform_color p target_color
  /\ is_ok (StreamlitApp.transform_color p target_color) = true.
Proof.
  intros Hp Ht Hnw [cs ->].
  destruct (valid_target_inv _ Ht) as (t0 & t1 & t2 & -> & H0 & H1 & H2).
  destruct (valid_tuple_inv _ Hp) as (r & g & b & Hr & Hg & Hb & Hcs).
  destruct Hcs as [->|(a & Ha & ->)].
  - destruct (transform_color_scaled r g b 0 t0 t1 t2) as (EB & _ & ES); auto.
    destruct (ES (Hnw r g b [] eq_refl)) as [E _]. cbv zeta in EB, E.
    rewrite EB, E. auto.
  - destruct (transform_color_scaled r g b a t0 t1 t2) as (_ & EB & ES); auto.
    destruct (ES (Hnw r g b [a] eq_refl)) as [_ E]. cbv zeta in EB, E.
    rewrite EB, E. auto.
Qed.

(** X14.  On an RGB or RGBA image that has no pure-white pixel, and for a
    valid target colour, the single-image [process_image], which walks the
    image column by column, and the batch [process_image], which walks it
    row by row, return the same image. *)
Theorem variants_produce_the_same_image
    (convert : image -> string -> image) (img : image)
    (target_color : list Z) (cb : option callback) :
  valid_image img -> no_white_pixel img -> valid_target target_color ->
  callback_returns cb -> (cb = None \/ width img <> 0%nat) ->
  exists out,
    BitmapImage.process_image convert img target_color = Ok out
    /\ snd (process_image convert img target_color cb) = Some out.
Proof.
  intros Hv Hnw Ht Hcb Hdiv.
  pose proof (normalise_valid convert img Hv) as Hn.
  assert (Hnb : BitmapImage.normalise convert img = img).
  { unfold BitmapImage.normalise.
    destruct Hv as [[Hm _]|[Hm _]]; rewrite Hm; reflexivity. }
  destruct (valid_image_bands img Hv) as (band & Hband & Hpv).
  assert (Hagree : forall x y, (x < width img)%nat -> (y < height img)%nat ->
            recolour_with BitmapConverter.transform_color img target_color x y
            = recolour_at img target_color x y
            /\ is_ok (recolour_at img target_color x y) = true).
  { intros x y Hx Hy. destruct (Hpv x y Hx Hy) as (p & Hp & Hvp & Hb).
    unfold recolour_with, recolour_at. rewrite Hp. cbn [mbind res_bind bind].
    apply variants_agree_on_valid_pixel; auto.
    - intros r g b rest ->. eapply Hnw; eauto.
    - destruct p as [v|cs]; [cbn in Hb; lia | eauto]. }
  destruct (process_image_succeeds convert img target_color cb Hcb)
    as (outS & HrunS & HshS & HwfS & HgetS).
  { now rewrite Hn. }
  { rewrite Hn. intros x y Hx Hy. now apply Hagree. }
  destruct (single_process_image_paints convert img target_color)
    as (outB & HrunB & HshB & HwfB & HgetB).
  { rewrite Hnb. intros x y Hx Hy.
    destruct (Hagree x y Hx Hy) as [-> ?]. assumption. }
  rewrite Hn in *. rewrite Hnb in *.
  exists outB. split; [exact HrunB|]. rewrite HrunS. cbn [snd]. f_equal.
  apply image_ext; auto.
  - destruct HshS as (? & ? & ?), HshB as (? & ? & ?). repeat split; congruence.
  - destruct HshS as (_ & Hw & Hh). intros x y Hx Hy.
    rewrite Hw in Hx. rewrite Hh in Hy.
    rewrite HgetS, HgetB by assumption.
    destruct (Hagree x y Hx Hy) as [-> _]. reflexivity.
Qed.

Lemma variants_produce_the_same_image_witness :
  exists out,
    BitmapImage.process_image keep_mode four_rgba [255; 0; 0] = Ok out
    /\ snd (process_image keep_mode four_rgba [255; 0; 0] (Some update_progress))
       = Some out.
Proof.
  apply (variants_produce_the_same_image keep_mode four_rgba [255; 0; 0]
           (Some update_progress)).
  - exact four_rgba_valid.
  - exact four_rgba_no_white.
  - exact red_is_valid_target.
  - intros f p [= <-]. reflexivity.
  - right. discriminate.
Defined.

(** ** Further properties of the batch loop *)

Section BatchLoop.

Variable Image_convert : image -> string -> image.
Variable Image_open : uploaded_file -> image.
Variable save_bmp : image -> bytes.
Variable parse_color : string -> list Z.

Abbreviation step := (batch_step Image_convert Image_open save_bmp parse_color).
Abbreviation loop := (batch_loop Image_convert Image_open save_bmp parse_color).
Abbreviation run := (main Image_convert Image_open save_bmp parse_color).

(** What one iteration does, by the three cases of the source. *)
Lemma step_cases (color : string) (bs : batch_state) (f : uploaded_file) :
  let key := (name f, color) in
  (exists e,
     processed_images (session bs) !! key = Some e
     /\ step color bs f
        = BatchState (session bs)
            (results bs ++ [(name f, entry_bytes e, format e)])
            (transform_calls bs))
  \/ (exists t,
        processed_images (session bs) !! key = None
        /\ snd (process_image Image_convert (Image_open f) (parse_color color)
                  (Some update_progress)) = Some t
        /\ step color bs f
           = BatchState
               (SessionState
                  (<[key := CacheEntry (Image_open f) t (save_bmp t) "BMP"]>
                     (processed_images (session bs)))
                  (current_color (session bs)))
               (results bs ++ [(name f, save_bmp t, "BMP")])
               (transform_calls bs ++ [name f]))
  \/ (processed_images (session bs) !! key = None
      /\ snd (process_image Image_convert (Image_open f) (parse_color color)
                (Some update_progress)) = None
      /\ step color bs f
         = BatchState (session bs) (results bs) (transform_calls bs ++ [name f])).
Proof.
  cbv zeta.
  destruct (processed_images (session bs) !! (name f, color)) as [e|] eqn:Hk.
  - left. exists e. split; [reflexivity|]. now apply batch_step_hit.
  - right.
    destruct (snd (process_image Image_convert (Image_open f)
                     (parse_color color) (Some update_progress)))
      as [t|] eqn:Hp.
    + left. exists t. split; [reflexivity|]. split; [reflexivity|].
      unfold StreamlitApp.batch_step. cbv zeta. rewrite Hk, Hp.
      cbn [session results transform_calls processed_images].
      rewrite lookup_insert_eq. reflexivity.
    + right. split; [reflexivity|]. split; [reflexivity|].
      now apply batch_step_failed.
Qed.

Lemma step_keeps_entries (color : string) (bs : batch_state)
    (f : uploaded_file) (key : string * string) (e : cache_entry) :
  processed_images (session bs) !! key = Some e ->
  processed_images (session (step color bs f)) !! key = Some e.
Proof.
  intros Hk.
  destruct (step_cases color bs f) as [(e' & _ & ->)|[(t & Hmiss & _ & ->)|(_ & _ & ->)]];
    cbn [session processed_images]; [exact Hk| |exact Hk].
  rewrite lookup_insert_ne; [exact Hk|]. intros <-. congruence.
Qed.

Lemma step_keeps_color (color : string) (bs : batch_state) (f : uploaded_file) :
  current_color (session (step color bs f)) = current_color (session bs).
Proof.
  destruct (step_cases color bs f) as [(e' & _ & ->)|[(t & _ & _ & ->)|(_ & _ & ->)]];
    reflexivity.
Qed.

(** X15.  The loop never removes or replaces a cache entry: an entry
    present before the loop is present, unchanged, after it, and the colour
    of the session is untouched. *)
Theorem loop_keeps_cache_entries (color : string) (st : session_state)
    (uploaded_files : list uploaded_file) (key : string * string)
    (e : cache_entry) :
  processed_images st !! key = Some e ->
  processed_images (session (loop color st uploaded_files)) !! key = Some e
  /\ current_color (session (loop color st uploaded_files)) = current_color st.
Proof.
  unfold StreamlitApp.batch_loop.
  assert (G : forall files bs,
             processed_images (session bs) !! key = Some e ->
             processed_images (session (foldl (step color) bs files)) !! key
               = Some e
             /\ current_color (session (foldl (step color) bs files))
                = current_color (session bs)).
  { induction files as [|f files IH]; intros bs Hk; [auto|].
    cbn [foldl].
    destruct (IH (step color bs f) (step_keeps_entries _ _ _ _ _ Hk)) as [H1 H2].
    split; [exact H1|]. rewrite H2. apply step_keeps_color. }
  intros Hk. apply (G uploaded_files (BatchState st [] []) Hk).
Qed.

Lemma served_hit (color : string) (bs : batch_state) (f : uploaded_file)
    (r : string * bytes * string) :
  served color (processed_images (session bs)) f = Some r ->
  step color bs f = BatchState (session bs) (results bs ++ [r]) (transform_calls bs).
Proof.
  unfold served. intros Hs.
  destruct (processed_images (session bs) !! (name f, color)) as [e|] eqn:Hk;
    [|discriminate].
  cbn in Hs. injection Hs as <-. now apply batch_step_hit.
Qed.

(** X16.  When the key of every uploaded file is already in the cache, the
    loop calls [process_image] for none of them, leaves the session as it
    is, and serves every file, in the order of the upload, from the cache. *)
Theorem warm_batch_is_served_from_cache (color : string) (st : session_state)
    (uploaded_files : list uploaded_file) :
  (forall f, f ∈ uploaded_files ->
             is_Some (processed_images st !! (name f, color))) ->
  transform_calls (loop color st uploaded_files) = []
  /\ session (loop color st uploaded_files) = st
  /\ Some <$> results (loop color st uploaded_files)
     = served color (processed_images st) <$> uploaded_files.
Proof.
  unfold StreamlitApp.batch_loop.
  assert (G : forall files bs,
             session bs = st ->
             (forall f, f ∈ files ->
                        is_Some (processed_images st !! (name f, color))) ->
             transform_calls (foldl (step color) bs files) = transform_calls bs
             /\ session (foldl (step color) bs files) = st
             /\ Some <$> results (foldl (step color) bs files)
                = (Some <$> results bs)
                  ++ (served color (processed_images st) <$> files)).
  { induction files as [|f files IH]; intros bs Hst Hall.
    - cbn. now rewrite app_nil_r.
    - cbn [foldl]. destruct (Hall f ltac:(left)) as [e He].
      assert (Hs : served color (processed_images (session bs)) f
                   = Some (name f, entry_bytes e, format e)).
      { unfold served. rewrite Hst, He. reflexivity. }
      rewrite (served_hit _ _ _ _ Hs).
      destruct (IH (BatchState (session bs)
                      (results bs ++ [(name f, entry_bytes e, format e)])
                      (transform_calls bs)) Hst) as (H1 & H2 & H3).
      { intros f' Hf'. apply Hall. now right. }
      cbn [transform_calls results session] in *.
      split; [exact H1|]. split; [exact H2|].
      rewrite Hst in Hs.
      rewrite H3, fmap_app, (fmap_cons _ f files), Hs, <- app_assoc.
      reflexivity. }
  intros Hall. destruct (G uploaded_files (BatchState st [] []) eq_refl Hall)
    as (H1 & H2 & H3).
  split; [exact H1|]. split; [exact H2|]. exact H3.
Qed.

Lemma step_results (color : string) (bs : batch_state) (f : uploaded_file) :
  results (step color bs f) = results bs
  \/ exists r, result_name r = name f
               /\ results (step color bs f) = results bs ++ [r]
               /\ served color (processed_images (session (step color bs f))) f
                  = Some r.
Proof.
  destruct (step_cases color bs f)
    as [(e & Hk & ->)|[(t & Hmiss & _ & ->)|(_ & _ & ->)]];
    cbn [results session processed_images]; [right|right|left; reflexivity].
  - eexists. split; [|split; [reflexivity|]]; [reflexivity|].
    unfold served. rewrite Hk. reflexivity.
  - eexists. split; [|split; [reflexivity|]]; [reflexivity|].
    unfold served. rewrite lookup_insert_eq. reflexivity.
Qed.

Lemma served_persists (color : string) (bs : batch_state)
    (f g : uploaded_file) (r : string * bytes * string) :
  served color (processed_images (session bs)) g = Some r ->
  served color (processed_images (session (step color bs f))) g = Some r.
Proof.
  unfold served. intros Hs.
  destruct (processed_images (session bs) !! (name g, color)) as [e|] eqn:Hk;
    [|discriminate].
  now rewrite (step_keeps_entries color bs f _ _ Hk).
Qed.

(** The loop from any state: what it adds to the results. *)
Lemma loop_results (color : string) (files : list uploaded_file) :
  forall bs, exists ext,
    results (foldl (step color) bs files) = results bs ++ ext
    /\ result_name <$> ext `sublist_of` name <$> files
    /\ (forall r, r ∈ ext ->
          exists f, f ∈ files
                    /\ served color
                         (processed_images
                            (session (foldl (step color) bs files))) f
                       = Some r).
Proof.
  induction files as [|f files IH]; intros bs.
  - exists []. cbn. rewrite app_nil_r. split; [reflexivity|].
    split; [constructor|]. intros r Hr. inversion Hr.
  - cbn [foldl]. destruct (IH (step color bs f)) as (ext & Hres & Hsub & Hserved).
    assert (Hpers : forall g r,
               served color (processed_images (session (step color bs f))) g
                 = Some r ->
               served color
                 (processed_images
                    (session (foldl (step color) (step color bs f) files))) g
               = Some r).
    { clear. intros g r. generalize (step color bs f). clear bs.
      induction files as [|f' files IH]; intros bs Hs; [exact Hs|].
      cbn [foldl]. apply IH. now apply served_persists. }
    destruct (step_results color bs f) as [Hsame|(r & Hname & Hadd & Hs)].
    + exists ext. rewrite Hres, Hsame. split; [reflexivity|].
      split; [rewrite fmap_cons; now apply sublist_cons|].
      intros r Hr. destruct (Hserved r Hr) as (g & Hg & Hsg).
      exists g. split; [now right | exact Hsg].
    + exists (r :: ext). rewrite Hres, Hadd, <- app_assoc.
      split; [reflexivity|]. split.
      * rewrite !fmap_cons, Hname. now apply sublist_skip.
      * intros r' Hr'. apply elem_of_cons in Hr' as [->|Hr'].
        -- exists f. split; [now left | now apply Hpers].
        -- destruct (Hserved r' Hr') as (g & Hg & Hsg).
           exists g. split; [now right | exact Hsg].
Qed.

(** X17.  The results follow the order of the upload: the names of the
    results are the names of the uploaded files with some files left out,
    so there are at most as many results as files. *)
Theorem results_follow_upload_order (color : string) (st : session_state)
    (uploaded_files : list uploaded_file) :
  result_name <$> results (loop color st uploaded_files)
    `sublist_of` name <$> uploaded_files
  /\ (length (results (loop color st uploaded_files))
      <= length uploaded_files)%nat.
Proof.
  unfold StreamlitApp.batch_loop.
  destruct (loop_results color uploaded_files (BatchState st [] []))
    as (ext & Hres & Hsub & _).
  rewrite Hres. cbn [results app]. split; [exact Hsub|].
  apply sublist_length in Hsub. now rewrite !length_fmap in Hsub.
Qed.

Lemma served_results_cached_aux (color : string) (st : session_state)
    (uploaded_files : list uploaded_file) (r : string * bytes * string) :
  r ∈ results (loop color st uploaded_files) ->
  exists f, f ∈ uploaded_files
            /\ served color
                 (processed_images (session (loop color st uploaded_files))) f
               = Some r.
Proof.
  unfold StreamlitApp.batch_loop. intros Hr.
  destruct (loop_results color uploaded_files (BatchState st [] []))
    as (ext & Hres & _ & Hserved).
  rewrite Hres in Hr. cbn [results app] in Hr. now apply Hserved.
Qed.

(** X18.  Every result the loop serves is the entry the cache holds for
    that file at the end of the loop: its name is the name of an uploaded
    file, and its bytes and format are those stored under the key of that
    file and the colour. *)
Theorem served_results_are_cached (color : string) (st : session_state)
    (uploaded_files : list uploaded_file) (r : string * bytes * string) :
  r ∈ results (loop color st uploaded_files) ->
  exists f, f ∈ uploaded_files
            /\ served color
                 (processed_images (session (loop color st uploaded_files))) f
               = Some r.
Proof. apply served_results_cached_aux. Qed.

Lemma step_single_colour (color : string) (bs : batch_state) (f : uploaded_file) :
  current_color (session bs) = color -> single_colour (session bs) ->
  single_colour (session (step color bs f)).
Proof.
  intros Hc Hinv.
  destruct (step_cases color bs f)
    as [(e & _ & ->)|[(t & _ & _ & ->)|(_ & _ & ->)]];
    cbn [session]; [exact Hinv| |exact Hinv].
  intros n c Hs. cbn [processed_images current_color] in *.
  destruct (decide ((name f, color) = (n, c))) as [[= <- <-]|Hne].
  - now symmetry.
  - rewrite lookup_insert_ne in Hs by exact Hne. apply (Hinv n c Hs).
Qed.

(** X19.  The cache holds results of one colour: when every key of the
    cache carries the colour of the session before a run of [main], so does
    every key after it, and the colour of the session is the selected
    colour. *)
Theorem cache_holds_a_single_colour (color : string) (st : session_state)
    (uploaded_files : list uploaded_file) :
  single_colour st ->
  single_colour (session (fst (run color uploaded_files st)))
  /\ current_color (session (fst (run color uploaded_files st))) = color.
Proof.
  intros Hinv. unfold StreamlitApp.main, StreamlitApp.batch_loop. cbv zeta.
  cbn [fst].
  assert (G : forall files bs,
             current_color (session bs) = color -> single_colour (session bs) ->
             single_colour (session (foldl (step color) bs files))
             /\ current_color (session (foldl (step color) bs files)) = color).
  { induction files as [|f files IH]; intros bs Hc Hs; [auto|].
    cbn [foldl]. apply IH.
    - now rewrite step_keeps_color.
    - now apply step_single_colour. }
  apply G; cbn [session]; unfold select_color.
  - destruct (decide (color <> current_color st)) as [Hne|He];
      [reflexivity|].
    destruct (decide (color = current_color st)); [auto | contradiction].
  - destruct (decide (color <> current_color st)) as [Hne|He];
      [|exact Hinv].
    intros n c Hs. cbn [processed_images] in Hs.
    rewrite lookup_empty in Hs. destruct Hs as [? [=]].
Qed.

(** With a decoder that always returns an image: every file whose key is
    in the cache, or whose transform returns an image, has a result. *)
Lemma good_file_is_served (color : string) (st : session_state)
    (uploaded_files : list uploaded_file) (f : uploaded_file) :
  f ∈ uploaded_files ->
  is_Some (processed_images st !! (name f, color))
  \/ is_Some (snd (process_image Image_convert (Image_open f)
                     (parse_color color) (Some update_progress))) ->
  name f ∈ result_name <$> results (loop color st uploaded_files).
Proof.
  unfold StreamlitApp.batch_loop. intros Hin Hgood.
  assert (G : forall files bs,
             f ∈ files ->
             is_Some (processed_images (session bs) !! (name f, color))
             \/ is_Some (snd (process_image Image_convert (Image_open f)
                                (parse_color color) (Some update_progress))) ->
             name f ∈ result_name <$> results (foldl (step color) bs files)).
  { induction files as [|f' files IH]; intros bs Hf Hg; [inversion Hf|].
    cbn [foldl]. apply elem_of_cons in Hf as [<-|Hf].
    - destruct (loop_results color files (step color bs f)) as (ext & -> & _).
      rewrite fmap_app. apply elem_of_app. left.
      destruct (step_cases color bs f)
        as [(e & _ & ->)|[(t & _ & _ & ->)|(Hmiss & Hfail & _)]].
      + cbn [results]. rewrite fmap_app. apply elem_of_app. right.
        apply list_elem_of_singleton. reflexivity.
      + cbn [results]. rewrite fmap_app. apply elem_of_app. right.
        apply list_elem_of_singleton. reflexivity.
      + exfalso. destruct Hg as [[e He]|[t Ht]]; congruence.
    - apply IH; [exact Hf|].
      destruct Hg as [[e He]|Hg]; [left|now right].
      exists e. now apply step_keeps_entries. }
  now apply G.
Qed.



End BatchLoop.

(** ** The batch loop on sample data, continued *)

Lemma loop_keeps_cache_entries_witness :
  processed_images
    (session (batch_loop keep_mode open_two_band no_bytes always_red "#FF0000"
                warm_session [sample_file; sample_file]))
    !! ("a.bmp", "#FF0000") = Some sample_entry
  /\ current_color
       (session (batch_loop keep_mode open_two_band no_bytes always_red
                   "#FF0000" warm_session [sample_file; sample_file]))
     = current_color warm_session.
Proof.
  apply (loop_keeps_cache_entries keep_mode open_two_band no_bytes always_red
           "#FF0000" warm_session [sample_file; sample_file]
           ("a.bmp", "#FF0000") sample_entry).
  reflexivity.
Defined.

Lemma warm_batch_is_served_from_cache_witness :
  transform_calls (batch_loop keep_mode open_two_band no_bytes always_red
                     "#FF0000" warm_session [sample_file; sample_file]) = []
  /\ session (batch_loop keep_mode open_two_band no_bytes always_red "#FF0000"
                warm_session [sample_file; sample_file]) = warm_session
  /\ Some <$> results (batch_loop keep_mode open_two_band no_bytes always_red
                         "#FF0000" warm_session [sample_file; sample_file])
     = served "#FF0000" (processed_images warm_session)
         <$> [sample_file; sample_file].
Proof.
  apply (warm_batch_is_served_from_cache keep_mode open_two_band no_bytes
           always_red "#FF0000" warm_session [sample_file; sample_file]).
  intros f Hf.
  apply elem_of_cons in Hf as [->|Hf];
    [|apply elem_of_cons in Hf as [->|Hf]; [|inversion Hf]];
    exists sample_entry; reflexivity.
Defined.

Lemma served_results_are_cached_witness :
  exists f, f ∈ [sample_file]
            /\ served "#FF0000"
                 (processed_images
                    (session (batch_loop keep_mode open_one_pixel no_bytes
                                always_red "#FF0000" cold_session [sample_file])))
                 f
               = Some ("a.bmp", [], "BMP").
Proof.
  apply (served_results_are_cached keep_mode open_one_pixel no_bytes always_red
           "#FF0000" cold_session [sample_file] ("a.bmp", [], "BMP")).
  assert (E : results (batch_loop keep_mode open_one_pixel no_bytes always_red
                         "#FF0000" cold_session [sample_file])
              = [("a.bmp", [], "BMP")]) by (vm_compute; reflexivity).
  rewrite E. left.
Defined.

Lemma warm_session_single_colour : single_colour warm_session.
Proof.
  intros n c [e He]. cbn in He.
  apply lookup_singleton_Some in He as [[= <- <-] _]. reflexivity.
Qed.

Lemma cache_holds_a_single_colour_witness :
  single_colour
    (session (fst (main keep_mode open_one_pixel no_bytes always_red "#00FF00"
                     [sample_file] warm_session)))
  /\ current_color
       (session (fst (main keep_mode open_one_pixel no_bytes always_red
                        "#00FF00" [sample_file] warm_session)))
     = "#00FF00".
Proof.
  apply (cache_holds_a_single_colour keep_mode open_one_pixel no_bytes
           always_red "#00FF00" warm_session [sample_file]).
  exact warm_session_single_colour.
Defined.


(** ** The overall progress *)

Lemma overall_progress_value (idx len : nat) :
  len <> 0%nat ->
  overall_progress idx len
  = Ok (Z.of_nat ((idx + 1) * 100) / Z.of_nat len).
Proof.
  intros Hlen. unfold overall_progress.
  destruct (len =? 0)%nat eqn:E; [apply Nat.eqb_eq in E; contradiction|].
  unfold Qfloor. now rewrite (Zpos_of_nat len Hlen).
Qed.

(** X22.  The overall progress bar receives, after file [idx] of [len], an
    integer between 0 and 100; the values never decrease from one file to
    the next, and the value after the last file is exactly 100. *)
Theorem overall_progress_ends_at_100 (idx len : nat) :
  (idx < len)%nat ->
  exists v,
    overall_progress idx len = Ok v
    /\ 0 <= v <= 100
    /\ (forall idx' v', (idx' <= idx)%nat ->
          overall_progress idx' len = Ok v' -> v' <= v)
    /\ (S idx = len -> v = 100).
Proof.
  intros Hidx. assert (Hlen : len <> 0%nat) by lia.
  rewrite overall_progress_value by exact Hlen.
  eexists. split; [reflexivity|].
  assert (Hpos : 0 < Z.of_nat len) by lia.
  split; [|split].
  - split.
    + apply Z.div_pos; lia.
    + apply Z.div_le_upper_bound; [exact Hpos|]. lia.
  - intros idx' v' Hle. rewrite overall_progress_value by exact Hlen.
    intros [= <-]. apply Z.div_le_mono; [exact Hpos|]. lia.
  - intros <-. replace (Z.of_nat ((idx + 1) * 100)) with (100 * Z.of_nat (S idx))
      by lia.
    apply Z.div_mul. lia.
Qed.

Lemma overall_progress_ends_at_100_witness :
  exists v,
    overall_progress 2 3 = Ok v
    /\ 0 <= v <= 100
    /\ (forall idx' v', (idx' <= 2)%nat ->
          overall_progress idx' 3 = Ok v' -> v' <= v)
    /\ (3%nat = 3%nat -> v = 100).
Proof. apply (overall_progress_ends_at_100 2 3). lia. Defined.

Example overall_progress_of_three_files :
  overall_progress 0 3 = Ok 33 /\ overall_progress 1 3 = Ok 66
  /\ overall_progress 2 3 = Ok 100.
Proof. vm_compute. auto. Qed.

(** ** A decoder that can fail *)

Section RaisingDecoderProperties.

Variable Image_convert : image -> string -> image.
Variable Image_open : uploaded_file -> res image.
Variable save_bmp : image -> bytes.
Variable parse_color : string -> list Z.

Abbreviation step_r := (batch_step_raising Image_convert Image_open save_bmp parse_color).
Abbreviation files_r := (batch_files_raising Image_convert Image_open save_bmp parse_color).
Abbreviation loop_r := (batch_loop_raising Image_convert Image_open save_bmp parse_color).
Abbreviation step_t :=
  (batch_step Image_convert (opened Image_open) save_bmp parse_color).

(** On a file that opens, the iteration is the iteration of [batch_step]. *)
Lemma step_raising_opens (color : string) (bs : batch_state) (f : uploaded_file) :
  is_ok (Image_open f) = true ->
  step_r color bs f = Ok (step_t color bs f).
Proof.
  intros Hopen. unfold batch_step_raising, StreamlitApp.batch_step, opened.
  cbv zeta.
  destruct (processed_images (session bs) !! (name f, color)) as [e|] eqn:Hk.
  - cbn [mbind res_bind bind]. rewrite Hk. reflexivity.
  - destruct (Image_open f) as [img|e]; [|discriminate].
    cbn [mbind res_bind bind].
    destruct (snd (process_image Image_convert img (parse_color color)
                     (Some update_progress))) as [t|];
      cbn [mbind res_bind bind session results transform_calls processed_images].
    + rewrite lookup_insert_eq. reflexivity.
    + rewrite Hk. reflexivity.
Qed.

Lemma files_raising_open (color : string) (files : list uploaded_file) :
  (forall g, g ∈ files -> is_ok (Image_open g) = true) ->
  forall bs, files_r color files bs = Ok (foldl (step_t color) bs files).
Proof.
  induction files as [|f files IH]; intros Hall bs; [reflexivity|].
  cbn [batch_files_raising foldl].
  rewrite step_raising_opens by (apply Hall; left).
  cbn [mbind res_bind bind]. apply IH. intros g Hg. apply Hall. now right.
Qed.

(** X20.  A failing transform does not stop the batch: when every uploaded
    file can be opened, the loop ends normally, and every file whose key is
    in the cache, or for which [process_image] returns an image, has a
    result, whatever happens in the transform of the other files. *)
Theorem every_good_file_is_served (color : string) (st : session_state)
    (uploaded_files : list uploaded_file) :
  (forall g, g ∈ uploaded_files -> is_ok (Image_open g) = true) ->
  exists bs,
    loop_r color st uploaded_files = Ok bs
    /\ forall f img,
         f ∈ uploaded_files -> Image_open f = Ok img ->
         is_Some (processed_images st !! (name f, color))
         \/ is_Some (snd (process_image Image_convert img (parse_color color)
                            (Some update_progress))) ->
         name f ∈ result_name <$> results bs.
Proof.
  intros Hall. eexists. split.
  - unfold batch_loop_raising. now apply files_raising_open.
  - intros f img Hf Himg Hgood.
    apply (good_file_is_served Image_convert (opened Image_open) save_bmp
             parse_color color st uploaded_files f Hf).
    unfold opened. rewrite Himg. exact Hgood.
Qed.

(** X23.  A file that cannot be opened ends the batch: when the loop reaches
    a file whose key is not in the cache and [Image.open] raises, the
    exception leaves the loop and the files after it are not processed. *)
Theorem unopenable_file_ends_the_batch (color : string) (bs : batch_state)
    (g : uploaded_file) (rest : list uploaded_file) (e : exn) :
  processed_images (session bs) !! (name g, color) = None ->
  Image_open g = Raise e ->
  files_r color (g :: rest) bs = Raise e.
Proof.
  intros Hmiss Hraise. cbn [batch_files_raising].
  unfold batch_step_raising. cbv zeta.
  rewrite Hmiss, Hraise. reflexivity.
Qed.

(** A cached file is served without being opened, whatever the decoder
    would do with it. *)
Lemma cached_file_is_not_opened (color : string) (bs : batch_state)
    (g : uploaded_file) (entry : cache_entry) :
  processed_images (session bs) !! (name g, color) = Some entry ->
  step_r color bs g
  = Ok (BatchState (session bs)
          (results bs ++ [(name g, entry_bytes entry, format entry)])
          (transform_calls bs)).
Proof.
  intros Hhit. unfold batch_step_raising. cbv zeta. rewrite Hhit.
  cbn [mbind res_bind bind]. rewrite Hhit. reflexivity.
Qed.

End RaisingDecoderProperties.

(** The batch of a file whose transform fails followed by a good file: both
    open, and the good file is served. *)
Lemma every_good_file_is_served_witness :
  exists bs,
    batch_loop_raising keep_mode open_by_name no_bytes always_red "#FF0000"
      cold_session [bad_file; sample_file] = Ok bs
    /\ snd (process_image keep_mode two_band_pixel (always_red "#FF0000")
              (Some update_progress)) = None
    /\ "a.bmp" ∈ result_name <$> results bs.
Proof.
  assert (Hall : forall g, g ∈ [bad_file; sample_file] ->
                           is_ok (open_by_name g) = true).
  { intros g Hg. apply elem_of_cons in Hg as [->|Hg]; [reflexivity|].
    apply elem_of_cons in Hg as [->|Hg]; [reflexivity|].
    now apply elem_of_nil in Hg. }
  destruct (every_good_file_is_served keep_mode open_by_name no_bytes always_red
              "#FF0000" cold_session [bad_file; sample_file] Hall)
    as [bs [Hbs Hserved]].
  exists bs. split; [exact Hbs|]. split; [reflexivity|].
  apply (Hserved sample_file one_pixel).
  - right. left.
  - reflexivity.
  - right. vm_compute. eexists. reflexivity.
Defined.

Lemma unopenable_file_ends_the_batch_witness :
  batch_loop_raising keep_mode open_by_name no_bytes always_red "#FF0000"
    cold_session [junk_file; sample_file] = Raise ValueError.
Proof.
  apply (unopenable_file_ends_the_batch keep_mode open_by_name no_bytes
           always_red "#FF0000" (BatchState cold_session [] []) junk_file
           [sample_file] ValueError); reflexivity.
Defined.

(** The file whose transform fails is called and left out; the file after it
    is served. *)
Example bad_then_good :
  exists bs,
    batch_loop_raising keep_mode open_by_name no_bytes always_red "#FF0000"
      cold_session [bad_file; sample_file] = Ok bs
    /\ transform_calls bs = ["bad.bmp"; "a.bmp"]
    /\ results bs = [("a.bmp", [], "BMP")].
Proof. eexists. split; [vm_compute; reflexivity|]. split; reflexivity. Qed.
